(** * Payment-inequality dashboard: preprocessing pipeline and filter/metric engine

    Shallow embedding of [code/preprocessing.py] (the cleaning, join and
    aggregation pipeline) and of the filter and metric part of [app.py].

    Numeric model.  pandas stores numbers as IEEE-754 doubles.  Here a number
    is an exact rational, extended with the special values a double can take
    (the two infinities and NaN, which is also pandas' null for a numeric
    column): see [cell].  The sign of zero is not modelled.  Sums, shares and
    ranks are taken in exact arithmetic.  The top-percent step, whose outcome
    turns on the last bit of a threshold, is also given in double arithmetic
    ([Double], [apply_top_percent_double]): every operation is the exact one
    followed by the rounding to the nearest double.

    Text model.  A Python [str] is a [string] whose characters are the code
    points below 256; text with other characters is outside the model.  A
    missing value of an object column (NaN) is [None]. *)

From Stdlib Require Import QArith Qround Qabs Lia Lqa String Ascii List.
From Stdlib Require Import Sorting.Sorted Sorting.Permutation.
From stdpp Require Import base gmap strings.
Import ListNotations.

Local Open Scope string_scope.

(* ------------------------------------------------------------------ *)
(** ** Numbers as pandas holds them *)

Module Numeric.

Inductive cell : Type :=
| Finite (q : Q)
| PosInf
| NegInf
| NaN.

Definition is_nan (c : cell) : bool :=
  match c with NaN => true | _ => false end.

(** IEEE comparison: every comparison with NaN is false. *)
Definition cell_leb (a b : cell) : bool :=
  match a, b with
  | NaN, _ => false
  | _, NaN => false
  | NegInf, _ => true
  | _, PosInf => true
  | Finite x, Finite y => Qle_bool x y
  | PosInf, _ => false
  | _, NegInf => false
  end.

Definition cell_geb (a b : cell) : bool := cell_leb b a.

Definition cell_eqb (a b : cell) : bool := cell_leb a b && cell_leb b a.

Definition cell_ltb (a b : cell) : bool := cell_leb a b && negb (cell_leb b a).

Definition Qltb (x y : Q) : bool := negb (Qle_bool y x).

(** IEEE division.  A finite non-zero number divided by zero is an infinity,
    zero divided by zero is NaN; nothing raises. *)
Definition cell_div (a b : cell) : cell :=
  match a, b with
  | NaN, _ => NaN
  | _, NaN => NaN
  | Finite x, Finite y =>
      if Qeq_bool y 0
      then (if Qeq_bool x 0 then NaN else if Qltb 0 x then PosInf else NegInf)
      else Finite (x / y)
  | Finite _, _ => Finite 0
  | PosInf, Finite y => if Qltb y 0 then NegInf else PosInf
  | NegInf, Finite y => if Qltb y 0 then PosInf else NegInf
  | _, _ => NaN
  end.

Definition cell_mul (a b : cell) : cell :=
  match a, b with
  | NaN, _ => NaN
  | _, NaN => NaN
  | Finite x, Finite y => Finite (x * y)
  | Finite x, PosInf | PosInf, Finite x =>
      if Qeq_bool x 0 then NaN else if Qltb 0 x then PosInf else NegInf
  | Finite x, NegInf | NegInf, Finite x =>
      if Qeq_bool x 0 then NaN else if Qltb 0 x then NegInf else PosInf
  | PosInf, PosInf | NegInf, NegInf => PosInf
  | PosInf, NegInf | NegInf, PosInf => NegInf
  end.

(** Equality of cells up to the equality of rationals. *)
Definition cell_eq (a b : cell) : Prop :=
  match a, b with
  | Finite x, Finite y => x == y
  | PosInf, PosInf => True
  | NegInf, NegInf => True
  | NaN, NaN => True
  | _, _ => False
  end.

Fixpoint Qsum (xs : list Q) : Q :=
  match xs with
  | [] => 0
  | x :: t => x + Qsum t
  end.

End Numeric.

(* ------------------------------------------------------------------ *)
(** ** Double arithmetic

    A finite double is the rational it stands for.  An operation on doubles
    is the exact operation followed by [round64], the rounding to the nearest
    double, ties to the even significand (53 bits, gradual underflow at
    [2^-1074]).  A result beyond the largest double, an infinity in IEEE, is
    outside this model. *)

Module Double.

(** [2^e] *)
Definition pow2 (e : Z) : Q :=
  if (0 <=? e)%Z then inject_Z (2 ^ e) else (/ inject_Z (2 ^ (- e)))%Q.

(** The binary exponent of a positive rational: [2^(ilog2 x) <= x < 2^(ilog2 x + 1)]. *)
Definition ilog2 (x : Q) : Z :=
  let l := (Z.log2 (Qnum x) - Z.log2 (Zpos (Qden x)))%Z in
  if Qle_bool (pow2 l) x then l else (l - 1)%Z.

(** The nearest integer, a tie going to the even one. *)
Definition rne (x : Q) : Z :=
  let f := Qfloor x in
  match Qcompare (x - inject_Z f) (1 # 2) with
  | Lt => f
  | Gt => (f + 1)%Z
  | Eq => if Z.even f then f else (f + 1)%Z
  end.

(** The nearest double, in lowest terms. *)
Definition round64 (x : Q) : Q :=
  let y := Qred x in
  if Qeq_bool y 0 then 0%Q
  else
    let e := Z.max (ilog2 (Qabs y) - 52) (-1074) in
    Qred (inject_Z (rne (y / pow2 e)) * pow2 e).

Definition add (x y : Q) : Q := round64 (x + y).

Definition sub (x y : Q) : Q := round64 (x - y).

Definition mul (x y : Q) : Q := round64 (x * y).

Definition div (x y : Q) : Q := round64 (x / y).

End Double.

(* ------------------------------------------------------------------ *)
(** ** Python string methods used by the pipeline *)

Module Text.

(** [s.split(sep)] for a one-character separator: never the empty list. *)
Fixpoint split (sep : ascii) (s : string) : list string :=
  match s with
  | EmptyString => [EmptyString]
  | String c t =>
      if Ascii.eqb c sep then EmptyString :: split sep t
      else match split sep t with
           | [] => [String c EmptyString]
           | seg :: rest => String c seg :: rest
           end
  end.

(** [str.isspace] on the code points below 256: tab, LF, VT, FF, CR, FS, GS,
    RS, US, space, NEL (U+0085) and the no-break space (U+00A0). *)
Definition is_space (c : ascii) : bool :=
  let n := nat_of_ascii c in
  ((9 <=? n)%nat && (n <=? 13)%nat) || ((28 <=? n)%nat && (n <=? 32)%nat) ||
  (n =? 133)%nat || (n =? 160)%nat.

Fixpoint lstrip (s : string) : string :=
  match s with
  | EmptyString => EmptyString
  | String c t => if is_space c then lstrip t else s
  end.

Fixpoint rstrip (s : string) : string :=
  match s with
  | EmptyString => EmptyString
  | String c t =>
      match rstrip t with
      | EmptyString => if is_space c then EmptyString else String c EmptyString
      | t' => String c t'
      end
  end.

Definition strip (s : string) : string := rstrip (lstrip s).

(** [pat in s]. *)
Fixpoint contains (pat s : string) : bool :=
  String.prefix pat s ||
  match s with
  | EmptyString => false
  | String _ t => contains pat t
  end.

(** [s.replace(old, new)] for a non-empty [old]: occurrences are replaced
    left to right without overlap.  [skip] counts the characters of an
    occurrence still to be dropped. *)
Fixpoint replace_from (old new : string) (skip : nat) (s : string) : string :=
  match s with
  | EmptyString => EmptyString
  | String c t =>
      match skip with
      | S k => replace_from old new k t
      | O =>
          if String.prefix old s
          then new ++ replace_from old new (String.length old - 1) t
          else String c (replace_from old new 0 t)
      end
  end.

Definition replace (old new s : string) : string := replace_from old new 0 s.

Definition str_in (s : string) (l : list string) : bool :=
  existsb (String.eqb s) l.

End Text.

(* ------------------------------------------------------------------ *)
(** ** The DataFrame operations the two programs call *)

Module Frame.

Import Numeric.

Section Sort.
Context {A : Type} (leb : A -> A -> bool).

Fixpoint insert (x : A) (l : list A) : list A :=
  match l with
  | [] => [x]
  | y :: t => if leb x y then x :: l else y :: insert x t
  end.

(** [sort_values]: ascending order for [leb]. *)
Fixpoint sort (l : list A) : list A :=
  match l with
  | [] => []
  | x :: t => insert x (sort t)
  end.
End Sort.

Section GroupBy.
Context {R K : Type} `{EqDecision K}.
Context (key : R -> K) (key_leb : K -> K -> bool) (val : R -> Q).

(** The group keys of [groupby(key)]: each distinct key once, sorted. *)
Definition group_keys (rows : list R) : list K :=
  sort key_leb (remove_dups (map key rows)).

Definition group_sum (rows : list R) (k : K) : Q :=
  Qsum (map val (List.filter (fun r => bool_decide (key r = k)) rows)).

(** [rows.groupby(key)[val].sum().reset_index()] *)
Definition groupby_sum (rows : list R) : list (K * Q) :=
  map (fun k => (k, group_sum rows k)) (group_keys rows).
End GroupBy.

(** [Series.map(dict)] on one value: a key that is missing from the dict, or a
    missing value, gives a missing value. *)
Definition map_dict (d : gmap string string) (v : option string) : option string :=
  match v with
  | Some s => d !! s
  | None => None
  end.

Definition fillna (default : string) (v : option string) : string :=
  match v with
  | Some s => s
  | None => default
  end.

(** The [.str] accessor: a missing value stays missing. *)
Definition str_split (sep : ascii) (v : option string) : option (list string) :=
  option_map (Text.split sep) v.

(** [.str[-1]]: the last element, missing when there is none. *)
Definition str_last (v : option (list string)) : option string :=
  match v with
  | Some segs => List.last (map Some segs) None
  | None => None
  end.

Definition str_strip (v : option string) : option string :=
  option_map Text.strip v.

End Frame.

(* ------------------------------------------------------------------ *)
(** ** Exceptions, and programs that read and write files *)

Module Effect.

Inductive exn : Type :=
| FileNotFoundError
| HTTPError
| IndexError
| ValueError.

Inductive result (A : Type) : Type :=
| Ok (a : A)
| Raise (e : exn).
Arguments Ok {A} a.
Arguments Raise {A} e.

Definition bind_result {A B : Type} (r : result A) (k : A -> result B) : result B :=
  match r with
  | Ok a => k a
  | Raise e => Raise e
  end.

(** A program over a store [W]: it ends with a value or an exception, and in
    both cases leaves the store as its writes made it. *)
Definition prog (W A : Type) : Type := W -> result A * W.

Definition ret {W A : Type} (a : A) : prog W A := fun w => (Ok a, w).

Definition raise {W A : Type} (e : exn) : prog W A := fun w => (Raise e, w).

Definition bind {W A B : Type} (m : prog W A) (k : A -> prog W B) : prog W B :=
  fun w =>
    match m w with
    | (Ok a, w') => k a w'
    | (Raise e, w') => (Raise e, w')
    end.

Definition lift {W A : Type} (r : result A) : prog W A := fun w => (r, w).

Definition get {W : Type} : prog W W := fun w => (Ok w, w).

Definition put {W : Type} (w : W) : prog W unit := fun _ => (Ok tt, w).

End Effect.

Declare Scope prog_scope.
Delimit Scope prog_scope with prog.
Notation "x <- m ;; k" := (Effect.bind m (fun x => k))
  (at level 100, m at next level, right associativity) : prog_scope.
Notation "m ;;; k" := (Effect.bind m (fun _ => k))
  (at level 100, right associativity) : prog_scope.

(* ------------------------------------------------------------------ *)
(** ** code/preprocessing.py *)

Module Preprocessing.

Import Numeric Frame Effect.

(** One row of the raw CMS table, with the columns of [usecols].  An amount
    is a finite decimal or missing. *)
Record raw_payment : Type := {
  Covered_Recipient_Profile_ID : option string;
  Covered_Recipient_Specialty_1 : option string;
  Total_Amount_of_Payment_USDollars : option Q;
  Date_of_Payment : option string;
  Nature_of_Payment_or_Transfer_of_Value : option string;
  Recipient_State : option string
}.

(** One row of [payments_df] after STEP 3. *)
Record payment : Type := {
  covered_recipient_profile_id : option string;
  specialty : option string;
  payment_amount : Q;
  date_of_payment : option string;
  payment_type : option string;
  state : string;
  specialty_clean : string;
  payment_type_clean : string
}.

(** The raw ACS table, indexed by ['Label (Grouping)']: the index labels, and
    every other column with its name and its cells in index order. *)
Record acs_table : Type := {
  acs_index : list string;
  acs_columns : list (string * list string)
}.

(** One row of [df_policy_acs]. *)
Record policy_row : Type := {
  state_name : string;
  median_income : cell;
  total_households : cell;
  state_abbr : option string
}.

(** One row of [map_data], the state summary. *)
Record map_row : Type := {
  m_state : string;
  m_payment_amount : Q;
  m_state_name : string;
  m_median_income : cell;
  m_total_households : cell;
  m_state_abbr : option string;
  payment_per_household : cell
}.

(** One row of [detail_data]. *)
Record detail_row : Type := {
  d_state : string;
  d_specialty_clean : string;
  d_payment_type_clean : string;
  d_payment_amount : Q
}.

(** The files the run touches, and what the CMS download would return. *)
Record world : Type := {
  cms_raw_file : option (list raw_payment);
  acs_raw_file : option acs_table;
  cms_download : result (list raw_payment);
  state_summary_file : option (list map_row);
  payments_details_file : option (list detail_row)
}.

Definition nature_map : gmap string string :=
  list_to_map [
    ("Compensation for services other than consulting, including serving as faculty or as a speaker at a venue other than a continuing education program",
     "Non-consulting professional services");
    ("Consulting Fee", "Consulting");
    ("Food and Beverage", "Food & Beverage");
    ("Travel and Lodging", "Travel & Lodging");
    ("Royalty or License", "Royalty / License");
    ("Honoraria", "Honoraria");
    ("Education", "Education");
    ("Grant", "Grant");
    ("Acquisitions", "Acquisitions");
    ("Entertainment", "Entertainment");
    ("Long term medical supply or device loan", "Device / Supply Loan")
  ].

Definition state_to_abbr_items : list (string * string) := [
  ("Alabama", "AL"); ("Alaska", "AK"); ("Arizona", "AZ"); ("Arkansas", "AR"); ("California", "CA");
  ("Colorado", "CO"); ("Connecticut", "CT"); ("Delaware", "DE"); ("Florida", "FL"); ("Georgia", "GA");
  ("Hawaii", "HI"); ("Idaho", "ID"); ("Illinois", "IL"); ("Indiana", "IN"); ("Iowa", "IA");
  ("Kansas", "KS"); ("Kentucky", "KY"); ("Louisiana", "LA"); ("Maine", "ME"); ("Maryland", "MD");
  ("Massachusetts", "MA"); ("Michigan", "MI"); ("Minnesota", "MN"); ("Mississippi", "MS"); ("Missouri", "MO");
  ("Montana", "MT"); ("Nebraska", "NE"); ("Nevada", "NV"); ("New Hampshire", "NH"); ("New Jersey", "NJ");
  ("New Mexico", "NM"); ("New York", "NY"); ("North Carolina", "NC"); ("North Dakota", "ND"); ("Ohio", "OH");
  ("Oklahoma", "OK"); ("Oregon", "OR"); ("Pennsylvania", "PA"); ("Rhode Island", "RI"); ("South Carolina", "SC");
  ("South Dakota", "SD"); ("Tennessee", "TN"); ("Texas", "TX"); ("Utah", "UT"); ("Vermont", "VT");
  ("Virginia", "VA"); ("Washington", "WA"); ("West Virginia", "WV"); ("Wisconsin", "WI"); ("Wyoming", "WY");
  ("District of Columbia", "DC")
].

Definition state_to_abbr : gmap string string := list_to_map state_to_abbr_items.

(** STEP 2: the cached file when there is one, else the download, which is
    then cached. *)
Definition load_cms : prog world (list raw_payment) :=
  (w <- get ;;
   match cms_raw_file w with
   | Some rows => ret rows
   | None =>
       rows <- lift (cms_download w) ;;
       put {| cms_raw_file := Some rows;
              acs_raw_file := acs_raw_file w;
              cms_download := cms_download w;
              state_summary_file := state_summary_file w;
              payments_details_file := payments_details_file w |} ;;;
       ret rows
   end)%prog.

(** [specialty.str.split("|").str[-1].str.strip().fillna("Unknown")] *)
Definition clean_specialty (v : option string) : string :=
  fillna "Unknown" (str_strip (str_last (str_split "|"%char v))).

Definition clean_payment_type (v : option string) : string :=
  fillna "Other" (map_dict nature_map v).

(** STEP 3 on one row: [None] when the row is filtered out
    ([Total_Amount_of_Payment_USDollars > 0] is false, also for a missing
    amount). *)
Definition clean_row (r : raw_payment) : option payment :=
  match Total_Amount_of_Payment_USDollars r with
  | Some amount =>
      if Qltb 0 amount then
        Some {| covered_recipient_profile_id := Covered_Recipient_Profile_ID r;
                specialty := Covered_Recipient_Specialty_1 r;
                payment_amount := amount;
                date_of_payment := Date_of_Payment r;
                payment_type := Nature_of_Payment_or_Transfer_of_Value r;
                state := fillna "Unknown" (Recipient_State r);
                specialty_clean := clean_specialty (Covered_Recipient_Specialty_1 r);
                payment_type_clean :=
                  clean_payment_type (Nature_of_Payment_or_Transfer_of_Value r) |}
      else None
  | None => None
  end.

Definition clean_payments (rows : list raw_payment) : list payment :=
  omap clean_row rows.

Section Acs.
(** [pd.to_numeric(text, errors='coerce')] is taken as given: the number a
    cell text reads as, NaN when it does not parse. *)
Variable to_numeric : string -> cell.

(** [[idx for idx in index if fragment in idx][0]] *)
Definition first_label (fragment : string) (index : list string) : result string :=
  match List.filter (Text.contains fragment) index with
  | lbl :: _ => Ok lbl
  | [] => Raise IndexError
  end.

(** The positions of the index that carry the label [lbl]. *)
Fixpoint positions (lbl : string) (from : nat) (index : list string) : list nat :=
  match index with
  | [] => []
  | l :: t =>
      if String.eqb l lbl then from :: positions lbl (S from) t
      else positions lbl (S from) t
  end.

Definition numeric_at (cells : list string) (i : nat) : cell :=
  to_numeric (Text.replace "," "" (nth i cells "")).

Definition policy_row_of (i h : nat) (col : string * list string) : policy_row :=
  let name := Text.replace "!!Estimate" "" (fst col) in
  {| state_name := name;
     median_income := numeric_at (snd col) i;
     total_households := numeric_at (snd col) h;
     state_abbr := map_dict state_to_abbr (Some name) |}.

(** STEP 4 after the file is read.  Selecting the two labels gives one
    column per index row that carries them; naming the result with two
    names raises when that is not two columns. *)
Definition prepare_acs (t : acs_table) : result (list policy_row) :=
  let estimate_cols :=
    List.filter (fun c => Text.contains "!!Estimate" (fst c)) (acs_columns t) in
  bind_result (first_label "Median household income (dollars)" (acs_index t))
    (fun income_lbl =>
  bind_result (first_label "Total households" (acs_index t))
    (fun hh_lbl =>
  match (positions income_lbl 0 (acs_index t) ++ positions hh_lbl 0 (acs_index t))%list with
  | [i; h] => Ok (map (policy_row_of i h) estimate_cols)
  | _ => Raise ValueError
  end)).

(** [payments_df.groupby('state')['payment_amount'].sum().reset_index()] *)
Definition state_summary (payments : list payment) : list (string * Q) :=
  groupby_sum state String.leb payment_amount payments.

Definition merge_row (l : string * Q) (r : policy_row) : map_row :=
  {| m_state := fst l;
     m_payment_amount := snd l;
     m_state_name := state_name r;
     m_median_income := median_income r;
     m_total_households := total_households r;
     m_state_abbr := state_abbr r;
     payment_per_household := cell_div (Finite (snd l)) (total_households r) |}.

(** STEP 5: the inner merge on [state == state_abbr], then the ratio. *)
Definition map_data (payments : list payment) (acs : list policy_row) : list map_row :=
  flat_map
    (fun l =>
       map (merge_row l)
           (List.filter (fun r => bool_decide (state_abbr r = Some (fst l))) acs))
    (state_summary payments).

Definition detail_key (p : payment) : string * string * string :=
  (state p, specialty_clean p, payment_type_clean p).

Definition detail_key_leb (a b : string * string * string) : bool :=
  match String.compare (fst (fst a)) (fst (fst b)) with
  | Lt => true
  | Gt => false
  | Eq =>
      match String.compare (snd (fst a)) (snd (fst b)) with
      | Lt => true
      | Gt => false
      | Eq => String.leb (snd a) (snd b)
      end
  end.

(** STEP 6: the sum per (state, specialty_clean, payment_type_clean). *)
Definition detail_data (payments : list payment) : list detail_row :=
  map (fun g => {| d_state := fst (fst (fst g));
                   d_specialty_clean := snd (fst (fst g));
                   d_payment_type_clean := snd (fst g);
                   d_payment_amount := snd g |})
      (groupby_sum detail_key detail_key_leb payment_amount payments).

Definition read_acs : prog world acs_table :=
  (w <- get ;;
   match acs_raw_file w with
   | Some t => ret t
   | None => raise FileNotFoundError
   end)%prog.

Definition write_state_summary (rows : list map_row) : prog world unit :=
  (w <- get ;;
   put {| cms_raw_file := cms_raw_file w;
          acs_raw_file := acs_raw_file w;
          cms_download := cms_download w;
          state_summary_file := Some rows;
          payments_details_file := payments_details_file w |})%prog.

Definition write_payments_details (rows : list detail_row) : prog world unit :=
  (w <- get ;;
   put {| cms_raw_file := cms_raw_file w;
          acs_raw_file := acs_raw_file w;
          cms_download := cms_download w;
          state_summary_file := state_summary_file w;
          payments_details_file := Some rows |})%prog.

Definition run_preprocessing : prog world unit :=
  (raw <- load_cms ;;
   let payments_df := clean_payments raw in
   acs <- read_acs ;;
   df_policy_acs <- lift (prepare_acs acs) ;;
   write_state_summary (map_data payments_df df_policy_acs) ;;;
   write_payments_details (detail_data payments_df))%prog.
End Acs.

(** The specialty rule as the specification words it: the last non-empty
    trimmed segment, and "Unknown" when there is none. *)
Definition spec_clean_specialty (v : option string) : string :=
  match v with
  | None => "Unknown"
  | Some s =>
      List.last
        (List.filter (fun seg => negb (String.eqb seg ""))
                     (map Text.strip (Text.split "|"%char s)))
        "Unknown"
  end.

(** A reader of unsigned decimal integers, to run the pipeline on examples. *)
Fixpoint read_digits (acc : N) (s : string) : option N :=
  match s with
  | EmptyString => Some acc
  | String c t =>
      let n := N_of_ascii c in
      if ((48 <=? n) && (n <=? 57))%N then read_digits (acc * 10 + (n - 48)) t
      else None
  end.

Definition read_decimal (s : string) : cell :=
  match s with
  | EmptyString => NaN
  | _ => match read_digits 0 s with
         | Some n => Finite (inject_Z (Z.of_N n))
         | None => NaN
         end
  end.

End Preprocessing.

(* ------------------------------------------------------------------ *)
(** ** app.py: filter logic and metrics *)

Module App.

Import Numeric Frame Effect Preprocessing.

(** The sidebar widgets' values. *)
Record controls : Type := {
  selected_states : list string;
  selected_specialty : list string;
  income_range : Z * Z;
  top_percent : Q
}.

Definition count_if {A : Type} (f : A -> bool) (l : list A) : nat :=
  length (List.filter f l).

Definition Qnat (n : nat) : Q := inject_Z (Z.of_nat n).

(** [Series.rank(pct=True)] at one value of the column: ties share the
    average of their ranks, a missing value has no rank and is not counted. *)
Definition rank_pct (col : list cell) (v : cell) : cell :=
  if is_nan v then NaN
  else
    let valid := List.filter (fun x => negb (is_nan x)) col in
    let less := count_if (fun x => cell_ltb x v) valid in
    let equal := count_if (fun x => cell_eqb x v) valid in
    Finite ((Qnat less + (Qnat equal + 1) / 2) / Qnat (length valid)).

(** [df_states[income_col].rank(pct=True) * 100]; the income column of the
    state summary is ['median_income']. *)
Definition income_percentile (df_states : list map_row) (r : map_row) : cell :=
  cell_mul (rank_pct (map m_median_income df_states) (m_median_income r)) (Finite 100).

Definition wealth_eligible_states (df_states : list map_row) (c : controls) : list string :=
  map m_state
    (List.filter
       (fun r =>
          cell_geb (income_percentile df_states r) (Finite (inject_Z (fst (income_range c)))) &&
          cell_leb (income_percentile df_states r) (Finite (inject_Z (snd (income_range c)))))
       df_states).

Definition final_state_list (df_states : list map_row) (c : controls) : list string :=
  List.filter (fun s => Text.str_in s (wealth_eligible_states df_states c))
              (selected_states c).

(** The specialty and state selection (lines 86-89). *)
Definition select_rows (df_details : list detail_row) (df_states : list map_row)
    (c : controls) : list detail_row :=
  List.filter
    (fun r =>
       Text.str_in (d_specialty_clean r) (selected_specialty c) &&
       Text.str_in (d_state r) (final_state_list df_states c))
    df_details.

(** The linear-interpolation quantile of numpy for [0 <= q <= 1]: with the
    sample sorted, the virtual index is [(n-1) * q], and the result lies
    between the order statistics on either side of it.  NaN on no sample. *)
Definition quantile_linear (xs : list Q) (q : Q) : cell :=
  match xs with
  | [] => NaN
  | _ :: _ =>
      let sorted := sort Qle_bool xs in
      let n := length sorted in
      let virtual_index := (Qnat (n - 1) * q)%Q in
      let previous := Z.to_nat (Qfloor virtual_index) in
      let next := Nat.min (previous + 1) (n - 1) in
      let gamma := (virtual_index - inject_Z (Qfloor virtual_index))%Q in
      Finite (nth previous sorted 0%Q +
              gamma * (nth next sorted 0%Q - nth previous sorted 0%Q))
  end.

(** [Series.quantile(q)]: pandas refuses a [q] outside [0, 1]. *)
Definition Series_quantile (xs : list Q) (q : Q) : result cell :=
  if Qle_bool 0 q && Qle_bool q 1 then Ok (quantile_linear xs q)
  else Raise ValueError.

Definition amounts (df : list detail_row) : list Q := map d_payment_amount df.

(** The top-X% step (lines 92-94), in exact arithmetic;
    [apply_top_percent_double] below has the rounding of the doubles. *)
Definition apply_top_percent (df : list detail_row) (top_percent : Q)
    : result (list detail_row) :=
  if Qltb top_percent 100 && (0 <? length df)%nat then
    bind_result (Series_quantile (amounts df) (1 - top_percent / 100))
      (fun threshold =>
         Ok (List.filter (fun r => cell_geb (Finite (d_payment_amount r)) threshold) df))
  else Ok df.

Definition filtered_df (df_details : list detail_row) (df_states : list map_row)
    (c : controls) : result (list detail_row) :=
  apply_top_percent (select_rows df_details df_states c) (top_percent c).

Definition total_payments (df : list detail_row) : Q := Qsum (amounts df).

Definition record_count (df : list detail_row) : nat := length df.

(** The top-1% share (lines 104-109). *)
Definition top_1_share (df : list detail_row) : result cell :=
  if Qltb 0 (total_payments df) then
    bind_result (Series_quantile (amounts df) (99 # 100))
      (fun top_1_threshold =>
         let top_1_sum :=
           Qsum (amounts
                   (List.filter
                      (fun r => cell_geb (Finite (d_payment_amount r)) top_1_threshold)
                      df)) in
         Ok (cell_div (Finite top_1_sum) (Finite (total_payments df))))
  else Ok (Finite 0).

Fixpoint cumsum_from (acc : Q) (xs : list Q) : list Q :=
  match xs with
  | [] => []
  | x :: t => (acc + x)%Q :: cumsum_from (acc + x) t
  end.

Definition cumsum (xs : list Q) : list Q := cumsum_from 0 xs.

(** One row of [lorenz_df]. *)
Record lorenz_row : Type := {
  l_row : detail_row;
  cum_money : Q;
  cum_percent_money : cell;
  cum_percent_people : cell
}.

Definition amount_leb (a b : detail_row) : bool :=
  Qle_bool (d_payment_amount a) (d_payment_amount b).

(** The Lorenz table (lines 134-138); nothing is built for no rows. *)
Definition lorenz_df (df : list detail_row) : list lorenz_row :=
  if (0 <? length df)%nat then
    let sorted := sort amount_leb df in
    let total := Qsum (amounts sorted) in
    let n := length sorted in
    map (fun t =>
           {| l_row := fst (fst t);
              cum_money := snd (fst t);
              cum_percent_money := cell_div (Finite (snd (fst t))) (Finite total);
              cum_percent_people := cell_div (Finite (Qnat (snd t))) (Finite (Qnat n)) |})
        (combine (combine sorted (cumsum (amounts sorted))) (seq 1 n))
  else [].

(** The Lorenz curve's points: (share of rows, share of payments). *)
Definition lorenz_points (df : list detail_row) : list (cell * cell) :=
  map (fun r => (cum_percent_people r, cum_percent_money r)) (lorenz_df df).

(** *** The top-X% step in double arithmetic

    [Series.quantile(q)] checks [0 <= q <= 1] and calls
    [np.percentile(values, q * 100.0, method='linear')], which goes back to
    [q * 100.0 / 100] and interpolates in the sorted sample (numpy 1.22 and
    later). *)

(** numpy's [_lerp(a, b, t)]. *)
Definition lerp (a b t : Q) : Q :=
  let diff_b_a := Double.sub b a in
  if Qle_bool (1 # 2) t
  then Double.sub b (Double.mul diff_b_a (Double.sub 1 t))
  else Double.add a (Double.mul diff_b_a t).

(** numpy's [_get_indexes]: the indexes on either side of the virtual index,
    [-1] (the last value) for both from [values_count - 1] on. *)
Definition get_indexes (values_count : nat) (virtual_index : Q) : Z * Z :=
  if Qle_bool (Qnat (values_count - 1)) virtual_index then ((-1)%Z, (-1)%Z)
  else if Qltb virtual_index 0 then (0%Z, 0%Z)
  else (Qfloor virtual_index, (Qfloor virtual_index + 1)%Z).

(** [arr[i]], a negative index counting from the end. *)
Definition take (arr : list Q) (i : Z) : Q :=
  nth (Z.to_nat (if (i <? 0)%Z then Z.of_nat (length arr) + i else i)) arr 0%Q.

(** [np.percentile(values, p, method='linear')] on a non-empty sample:
    [p / 100] is checked, the virtual index is [(n - 1) * q], and the result
    is interpolated between the values on either side of it in the sorted
    sample.  The count of values is a double (it is below [2^53]). *)
Definition percentile (values : list Q) (p : Q) : result Q :=
  let q := Double.div p 100 in
  if Qle_bool 0 q && Qle_bool q 1 then
    let arr := sort Qle_bool values in
    let values_count := length arr in
    let virtual_index := Double.mul (Qnat (values_count - 1)) q in
    let previous_index := fst (get_indexes values_count virtual_index) in
    let next_index := snd (get_indexes values_count virtual_index) in
    let gamma := Double.sub virtual_index (inject_Z previous_index) in
    Ok (lerp (take arr previous_index) (take arr next_index) gamma)
  else Raise ValueError.

(** [Series.quantile(q)], NaN on no values. *)
Definition Series_quantile_double (xs : list Q) (q : Q) : result cell :=
  if Qle_bool 0 q && Qle_bool q 1 then
    match xs with
    | [] => Ok NaN
    | _ :: _ => bind_result (percentile xs (Double.mul q 100)) (fun v => Ok (Finite v))
    end
  else Raise ValueError.

(** Lines 92-94 with the arithmetic of doubles. *)
Definition apply_top_percent_double (df : list detail_row) (top_percent : Q)
    : result (list detail_row) :=
  if Qltb top_percent 100 && (0 <? length df)%nat then
    bind_result
      (Series_quantile_double (amounts df) (Double.sub 1 (Double.div top_percent 100)))
      (fun threshold =>
         Ok (List.filter (fun r => cell_geb (Finite (d_payment_amount r)) threshold) df))
  else Ok df.

End App.

(* ------------------------------------------------------------------ *)
(** ** Example data *)

Module Examples.

Import Numeric Preprocessing.

Definition raw_row (st : option string) (spec : option string) (amount : option Q)
    : raw_payment :=
  {| Covered_Recipient_Profile_ID := None;
     Covered_Recipient_Specialty_1 := spec;
     Total_Amount_of_Payment_USDollars := amount;
     Date_of_Payment := None;
     Nature_of_Payment_or_Transfer_of_Value := Some "Grant";
     Recipient_State := st |}.

(** Two California payments and one from a territory the census table of the
    examples has no abbreviation for. *)
Definition raw_payments_ex : list raw_payment :=
  [ raw_row (Some "CA") (Some "Cardiology") (Some 100%Q);
    raw_row (Some "CA") (Some "Cardiology") (Some 900%Q);
    raw_row (Some "PR") (Some "Allopathic|Internal Medicine ") (Some 50%Q);
    raw_row None None None ].

Definition acs_with_households (hh : string) : acs_table :=
  {| acs_index := ["Total households"; "Median household income (dollars)"];
     acs_columns := [ ("California!!Estimate", [hh; "91,905"]);
                      ("California!!Margin of Error", ["1"; "5"]);
                      ("Puerto Rico!!Estimate", ["3"; "25,096"]) ] |}.

Definition acs_ex : acs_table := acs_with_households "2".

Definition detail_of (a : Q) : detail_row :=
  {| d_state := "CA";
     d_specialty_clean := "Cardiology";
     d_payment_type_clean := "Grant";
     d_payment_amount := a |}.

Definition ca_census_row : policy_row :=
  {| state_name := "California";
     median_income := Finite 91905;
     total_households := Finite 2;
     state_abbr := Some "CA" |}.

(** Scenario A: the two California payments over two households. *)
Definition ca_summary_row : map_row := merge_row ("CA", 1000%Q) ca_census_row.

Definition tx_census_row : policy_row :=
  {| state_name := "Texas";
     median_income := Finite 76292;
     total_households := Finite 5;
     state_abbr := Some "TX" |}.

(** A state summary of two states: California ranks at the 100th income
    percentile, Texas at the 50th. *)
Definition df_states_ex : list map_row :=
  [ ca_summary_row; merge_row ("TX", 500%Q) tx_census_row ].

Definition detail (st spec : string) (a : Q) : detail_row :=
  {| d_state := st;
     d_specialty_clean := spec;
     d_payment_type_clean := "Grant";
     d_payment_amount := a |}.

Definition df_details_ex : list detail_row :=
  [ detail "CA" "Cardiology" 10%Q; detail "CA" "Cardiology" 20%Q;
    detail "TX" "Cardiology" 30%Q; detail "CA" "Cardiology" 40%Q;
    detail "TX" "Dermatology" 5%Q ].

(** Both states are selected; the income band keeps California only. *)
Definition controls_ex : App.controls :=
  {| App.selected_states := ["CA"; "TX"];
     App.selected_specialty := ["Cardiology"];
     App.income_range := (60%Z, 100%Z);
     App.top_percent := 100%Q |}.

Definition world_ex (acs : option acs_table) : world :=
  {| cms_raw_file := Some raw_payments_ex;
     acs_raw_file := acs;
     cms_download := Effect.Raise Effect.HTTPError;
     state_summary_file := None;
     payments_details_file := None |}.

End Examples.

Import Numeric Text Frame Effect Preprocessing App.

Local Open Scope Q_scope.

(* ------------------------------------------------------------------ *)
(** ** Notions the statements use *)

Definition no_char (c : ascii) (s : string) : Prop :=
  ~ In c (list_ascii_of_string s).

(** The state-summary rows of one state. *)
Definition rows_of_state (s : string) (rows : list map_row) : list map_row :=
  List.filter (fun m => bool_decide (m_state m = s)) rows.

Definition census_rows_of (s : string) (acs : list policy_row) : list policy_row :=
  List.filter (fun r => bool_decide (state_abbr r = Some s)) acs.

Definition in_payments (s : string) (ps : list payment) : Prop :=
  exists p, In p ps /\ state p = s.

Definition in_census (s : string) (acs : list policy_row) : Prop :=
  exists r, In r acs /\ state_abbr r = Some s.

Definition state_names : list string := map fst state_to_abbr_items.

Definition state_abbrs : list string := map snd state_to_abbr_items.

(** A state passes the income band when one of its state-summary rows has its
    percentile rank in [lo, hi], both ends included. *)
Definition in_income_band (df_states : list map_row) (c : controls) (s : string) : Prop :=
  exists st, In st df_states /\ m_state st = s /\
    cell_leb (Finite (inject_Z (fst (income_range c)))) (income_percentile df_states st) = true /\
    cell_leb (income_percentile df_states st) (Finite (inject_Z (snd (income_range c)))) = true.

(** The interpolation numpy does in a sorted sample at virtual index [h]. *)
Definition interpolate (s : list Q) (h : Q) : Q :=
  nth (Z.to_nat (Qfloor h)) s 0 +
  (h - inject_Z (Qfloor h)) *
  (nth (Nat.min (Z.to_nat (Qfloor h) + 1) (length s - 1)) s 0 -
   nth (Z.to_nat (Qfloor h)) s 0).

(** The quantile of a non-empty sample as a rational. *)
Definition sample_quantile (xs : list Q) (q : Q) : Q :=
  interpolate (sort Qle_bool xs) (Qnat (length (sort Qle_bool xs) - 1) * q).

(** The linear-interpolation quantile in its textbook form: at position
    [h = (n-1) q] of the sorted sample, between the order statistics at the
    floor and at the ceiling of [h]. *)
Definition spec_quantile (xs : list Q) (q : Q) : cell :=
  match xs with
  | [] => NaN
  | _ :: _ =>
      let sorted := sort Qle_bool xs in
      let h := Qnat (length sorted - 1) * q in
      let lo := nth (Z.to_nat (Qfloor h)) sorted 0 in
      let hi := nth (Z.to_nat (Qceiling h)) sorted 0 in
      Finite (lo + (h - inject_Z (Qfloor h)) * (hi - lo))
  end.

Definition nonneg_amounts (df : list detail_row) : Prop :=
  Forall (fun r => 0 <= d_payment_amount r) df.


Definition controls_with (c : controls) (tp : Q) : controls :=
  {| selected_states := selected_states c;
     selected_specialty := selected_specialty c;
     income_range := income_range c;
     top_percent := tp |}.

Definition positive_amounts (df : list detail_row) : Prop :=
  Forall (fun r => 0 < d_payment_amount r) df.

Definition cell_le (a b : cell) : Prop := cell_leb a b = true.

Definition nondecreasing (cs : list cell) : Prop := Sorted cell_le cs.

(** The amounts in the order of the Lorenz table. *)
Definition lorenz_amounts (df : list detail_row) : list Q :=
  amounts (sort amount_leb df).

(* ------------------------------------------------------------------ *)
(** ** app.py: the FIPS lookup of the state table *)

Definition fips_items : list (string * Z) := [
  ("AL", 1%Z); ("AK", 2%Z); ("AZ", 4%Z); ("AR", 5%Z); ("CA", 6%Z); ("CO", 8%Z);
  ("CT", 9%Z); ("DE", 10%Z);
  ("FL", 12%Z); ("GA", 13%Z); ("HI", 15%Z); ("ID", 16%Z); ("IL", 17%Z); ("IN", 18%Z);
  ("IA", 19%Z);
  ("KS", 20%Z); ("KY", 21%Z); ("LA", 22%Z); ("ME", 23%Z); ("MD", 24%Z); ("MA", 25%Z);
  ("MI", 26%Z);
  ("MN", 27%Z); ("MS", 28%Z); ("MO", 29%Z); ("MT", 30%Z); ("NE", 31%Z); ("NV", 32%Z);
  ("NH", 33%Z);
  ("NJ", 34%Z); ("NM", 35%Z); ("NY", 36%Z); ("NC", 37%Z); ("ND", 38%Z); ("OH", 39%Z);
  ("OK", 40%Z);
  ("OR", 41%Z); ("PA", 42%Z); ("RI", 44%Z); ("SC", 45%Z); ("SD", 46%Z); ("TN", 47%Z);
  ("TX", 48%Z);
  ("UT", 49%Z); ("VT", 50%Z); ("VA", 51%Z); ("WA", 53%Z); ("WV", 54%Z); ("WI", 55%Z);
  ("WY", 56%Z); ("DC", 11%Z)
].

Definition fips_map : gmap string Z := list_to_map fips_items.

(** [df_states['state'].map(fips_map)] on one row of the state table. *)
Definition fips_code (r : map_row) : option Z := fips_map !! m_state r.

(* ------------------------------------------------------------------ *)
(** ** Further notions for the statements *)

(** The entries of [nature_map], in the order of the source. *)
Definition nature_items : list (string * string) := [
  ("Compensation for services other than consulting, including serving as faculty or as a speaker at a venue other than a continuing education program",
   "Non-consulting professional services");
  ("Consulting Fee", "Consulting");
  ("Food and Beverage", "Food & Beverage");
  ("Travel and Lodging", "Travel & Lodging");
  ("Royalty or License", "Royalty / License");
  ("Honoraria", "Honoraria");
  ("Education", "Education");
  ("Grant", "Grant");
  ("Acquisitions", "Acquisitions");
  ("Entertainment", "Entertainment");
  ("Long term medical supply or device loan", "Device / Supply Loan")
].

(** A raw amount that passes [Total_Amount_of_Payment_USDollars > 0]. *)
Definition positive_amount (a : option Q) : bool :=
  match a with
  | Some q => Qltb 0 q
  | None => false
  end.

(** The grouping columns of a detail row. *)
Definition detail_row_key (d : detail_row) : string * string * string :=
  (d_state d, d_specialty_clean d, d_payment_type_clean d).

Definition string_le (a b : string) : Prop := String.leb a b = true.

Definition detail_key_le (a b : string * string * string) : Prop :=
  detail_key_leb a b = true.

(** Some index label contains the fragment. *)
Definition has_label (fragment : string) (index : list string) : Prop :=
  exists lbl, In lbl index /\ Text.contains fragment lbl = true.

Definition is_estimate_column (col : string * list string) : bool :=
  Text.contains "!!Estimate" (fst col).

(** The same files with another answer of the CMS download. *)
Definition with_download (w : world) (d : result (list raw_payment)) : world :=
  {| cms_raw_file := cms_raw_file w;
     acs_raw_file := acs_raw_file w;
     cms_download := d;
     state_summary_file := state_summary_file w;
     payments_details_file := payments_details_file w |}.

(** The sidebar as it opens, for the two states of the examples: every state
    selected, the income slider at (0, 100), the top-percent slider at 100. *)
Definition full_band_controls : controls :=
  {| selected_states := ["CA"; "TX"];
     selected_specialty := ["Cardiology"];
     income_range := (0%Z, 100%Z);
     top_percent := 100 |}.

(** A row of the largest amount. *)
Definition largest_in (df : list detail_row) (r : detail_row) : Prop :=
  In r df /\ forall r', In r' df -> d_payment_amount r' <= d_payment_amount r.

(** [v] is the value at position [k], counted from 0, of the sample put in
    ascending order: it is a value of the sample, at most [k] values lie
    below it, and more than [k] values do not exceed it. *)
Definition is_order_statistic (xs : list Q) (k : nat) (v : Q) : Prop :=
  In v xs /\
  (count_if (fun x => Qltb x v) xs <= k)%nat /\
  (k < count_if (fun x => Qle_bool x v) xs)%nat.

(** [x] is a double: the rounding leaves it as it is. *)
Definition is_double (x : Q) : Prop := Double.round64 x == x.

(** No step of [_lerp(a, b, t)] rounds. *)
Definition lerp_unrounded (a b t : Q) : Prop :=
  is_double (b - a) /\
  is_double ((b - a) * t) /\ is_double (a + (b - a) * t) /\
  is_double (1 - t) /\ is_double ((b - a) * (1 - t)) /\
  is_double (b - (b - a) * (1 - t)).

(** A detail table whose California rows are not in the order of their
    amounts. *)
Definition df_details_mixed : list detail_row :=
  [ Examples.detail "CA" "Cardiology" 30; Examples.detail "TX" "Cardiology" 5;
    Examples.detail "CA" "Cardiology" 10; Examples.detail "CA" "Cardiology" 40;
    Examples.detail "CA" "Dermatology" 7; Examples.detail "CA" "Cardiology" 20 ].

(** A census table with two estimate columns that both read as Utah once
    ["!!Estimate"] is taken out of their names. *)
Definition acs_utah_twice : acs_table :=
  {| acs_index := ["Total households"; "Median household income (dollars)"];
     acs_columns := [ ("Utah!!Estimate", ["4"; "79,133"]);
                      ("Utah!!Estimate!!Estimate", ["5"; "80,000"]) ] |}.

Definition raw_payments_utah : list raw_payment :=
  [ Examples.raw_row (Some "UT") (Some "Cardiology") (Some 100) ].

(** Eleven amounts for which the 0.3 quantile falls on the fourth one. *)
Definition amounts_eleven : list Q :=
  [1; 2; 3; 4; 5000; 6000; 7000; 8000; 9000; 10000; 11000].

(* ------------------------------------------------------------------ *)
(** ** Text: the last pipe-delimited segment *)

Lemma split_nonempty (sep : ascii) (s : string) : Text.split sep s <> [].
Proof.
  destruct s as [|c t]; simpl; [discriminate|].
  destruct (Ascii.eqb c sep); [discriminate|].
  destruct (Text.split sep t); discriminate.
Qed.

Lemma split_no_sep (sep : ascii) (s : string) :
  no_char sep s -> Text.split sep s = [s].
Proof.
  unfold no_char. induction s as [|c t IH]; simpl; intros H; [reflexivity|].
  destruct (Ascii.eqb_spec c sep) as [->|Hne].
  - exfalso. apply H. now left.
  - rewrite IH; [reflexivity|]. intros Hin. apply H. now right.
Qed.

Lemma split_snoc_segment (sep : ascii) (pre seg : string) :
  no_char sep seg ->
  exists f front, Text.split sep (pre ++ String sep seg) = (f :: front ++ [seg])%list.
Proof.
  intros Hseg. induction pre as [|c t IH]; simpl.
  - rewrite Ascii.eqb_refl, (split_no_sep _ _ Hseg).
    exists EmptyString, []. reflexivity.
  - destruct IH as (f & front & ->).
    destruct (Ascii.eqb c sep).
    + exists EmptyString, (f :: front). reflexivity.
    + exists (String c f), front. reflexivity.
Qed.

Lemma split_last_segment (sep : ascii) (pre seg : string) :
  no_char sep seg ->
  List.last (map Some (Text.split sep (pre ++ String sep seg))) None = Some seg.
Proof.
  intros Hseg. destruct (split_snoc_segment sep pre seg Hseg) as (f & front & ->).
  change (f :: front ++ [seg])%list with ((f :: front) ++ [seg])%list.
  rewrite map_app. simpl map at 2. apply last_last.
Qed.

(** C2, the code at a specialty that ends in the separator and at a blank
    one: it writes the empty string, where the specification asks for the last
    non-empty segment, "Cardiology", and for "Unknown".  [fillna] replaces a
    missing value only, not an empty text. *)
Lemma clean_specialty_trailing_pipe :
  clean_specialty (Some "Cardiology|") = "" /\
  spec_clean_specialty (Some "Cardiology|") = "Cardiology" /\
  clean_specialty (Some "   ") = "" /\
  spec_clean_specialty (Some "   ") = "Unknown" /\
  clean_specialty (Some "Cardiology|") <> spec_clean_specialty (Some "Cardiology|").
Proof.
  repeat split; try reflexivity. vm_compute. discriminate.
Qed.

(** What the code writes in general: the trimmed text after the last
    separator of the raw specialty (the whole trimmed text when there is no
    separator), empty or not, and "Unknown" for a missing specialty only. *)
Lemma clean_specialty_last_segment (pre seg : string) :
  no_char "|"%char seg ->
  clean_specialty (Some seg) = Text.strip seg /\
  clean_specialty (Some (pre ++ String "|"%char seg)) = Text.strip seg /\
  clean_specialty None = "Unknown".
Proof.
  intros Hseg. unfold clean_specialty, str_strip, str_last, str_split. simpl.
  rewrite (split_no_sep _ _ Hseg), (split_last_segment _ pre _ Hseg).
  repeat split.
Qed.

Ltac solve_no_char :=
  unfold no_char; simpl; intros Hin;
  repeat (destruct Hin as [Hin|Hin]; [discriminate Hin|]); exact Hin.

Example clean_specialty_internal_medicine :
  no_char "|"%char "Internal Medicine " /\
  clean_specialty (Some "Allopathic|Internal Medicine ") = "Internal Medicine".
Proof.
  assert (H : no_char "|"%char "Internal Medicine ") by solve_no_char.
  split; [exact H|].
  exact (proj1 (proj2 (clean_specialty_last_segment "Allopathic" _ H))).
Qed.

(** The no-break space is white space to [str.strip], like the space. *)
Example clean_specialty_no_break_space :
  clean_specialty (Some ("Cardiology" ++ String (ascii_of_nat 160) "")) = "Cardiology".
Proof. vm_compute. reflexivity. Qed.

(* ------------------------------------------------------------------ *)
(** ** Sorting and grouping *)

Section SortFacts.
Context {A : Type} (leb : A -> A -> bool).

Lemma insert_perm (x : A) (l : list A) : Permutation (insert leb x l) (x :: l).
Proof.
  induction l as [|y t IH]; simpl; [reflexivity|].
  destruct (leb x y); [reflexivity|].
  rewrite IH. apply perm_swap.
Qed.

Lemma sort_perm (l : list A) : Permutation (sort leb l) l.
Proof.
  induction l as [|x t IH]; simpl; [reflexivity|].
  rewrite insert_perm. now constructor.
Qed.

Lemma sort_In (x : A) (l : list A) : In x (sort leb l) <-> In x l.
Proof.
  split; apply Permutation_in; [|symmetry]; apply sort_perm.
Qed.

Lemma sort_length (l : list A) : length (sort leb l) = length l.
Proof. apply Permutation_length, sort_perm. Qed.

Lemma sort_NoDup (l : list A) : NoDup l -> NoDup (sort leb l).
Proof. now rewrite sort_perm. Qed.

Hypothesis leb_total : forall a b, leb a b = true \/ leb b a = true.

Lemma insert_sorted (x : A) (l : list A) :
  Sorted (fun a b => leb a b = true) l ->
  Sorted (fun a b => leb a b = true) (insert leb x l).
Proof.
  induction 1 as [|y t Hs IH Hhd]; simpl.
  - repeat constructor.
  - destruct (leb x y) eqn:E.
    + constructor; [now constructor | now constructor].
    + constructor; [exact IH|].
      assert (Hyx : leb y x = true) by (destruct (leb_total x y); congruence).
      destruct t as [|z t']; simpl; [now constructor|].
      destruct (leb x z); constructor; [exact Hyx|].
      now inversion Hhd.
Qed.

Lemma sort_sorted (l : list A) : Sorted (fun a b => leb a b = true) (sort leb l).
Proof.
  induction l as [|x t IH]; simpl; [constructor | now apply insert_sorted].
Qed.
End SortFacts.

Lemma Qsum_perm (xs ys : list Q) : Permutation xs ys -> Qsum xs == Qsum ys.
Proof.
  induction 1; simpl; lra.
Qed.

Lemma Qsum_nonneg (xs : list Q) : Forall (fun x => 0 <= x) xs -> 0 <= Qsum xs.
Proof.
  induction 1; simpl; lra.
Qed.

Lemma Qsum_pos (xs : list Q) : xs <> [] -> Forall (fun x => 0 < x) xs -> 0 < Qsum xs.
Proof.
  intros Hne H. destruct H as [|x t Hx Ht]; [congruence|].
  simpl. assert (0 <= Qsum t); [|lra].
  apply Qsum_nonneg. eapply List.Forall_impl; [|exact Ht]. simpl. intros; lra.
Qed.

Lemma Qltb_lt (x y : Q) : Qltb x y = true <-> x < y.
Proof.
  unfold Qltb. rewrite negb_true_iff.
  destruct (Qle_bool y x) eqn:E.
  - apply Qle_bool_iff in E. split; [discriminate | lra].
  - split; [|reflexivity]. intros _.
    destruct (Qlt_le_dec x y) as [H|H]; [exact H|].
    apply Qle_bool_iff in H. congruence.
Qed.

Section GroupByFacts.
Context {R K : Type} `{EqDecision K}.
Context (key : R -> K) (key_leb : K -> K -> bool) (val : R -> Q).

Lemma group_keys_In (rows : list R) (k : K) :
  In k (group_keys key key_leb rows) <-> exists r, In r rows /\ key r = k.
Proof.
  unfold group_keys. rewrite sort_In, <- list_elem_of_In, elem_of_remove_dups.
  rewrite list_elem_of_In, in_map_iff.
  split; intros (r & H1 & H2); exists r; now split.
Qed.

Lemma group_keys_NoDup (rows : list R) : NoDup (group_keys key key_leb rows).
Proof. apply sort_NoDup, NoDup_remove_dups. Qed.

Lemma groupby_sum_In (rows : list R) (g : K * Q) :
  In g (groupby_sum key key_leb val rows) <->
  In (fst g) (group_keys key key_leb rows) /\ snd g = group_sum key val rows (fst g).
Proof.
  unfold groupby_sum. rewrite in_map_iff. split.
  - intros (k & <- & Hk). now split.
  - intros [Hk Hv]. exists (fst g). split; [|exact Hk].
    destruct g as [k v]; simpl in *. now subst.
Qed.

Lemma group_sum_pos (rows : list R) (k : K) :
  (forall r, In r rows -> 0 < val r) ->
  In k (group_keys key key_leb rows) ->
  0 < group_sum key val rows k.
Proof.
  intros Hpos Hk. apply group_keys_In in Hk as (r & Hr & Hkr).
  unfold group_sum. apply Qsum_pos.
  - intros Hnil.
    assert (Hin : In r (List.filter (fun r => bool_decide (key r = k)) rows)).
    { apply filter_In. split; [exact Hr|]. now apply bool_decide_eq_true. }
    apply (in_map val) in Hin. rewrite Hnil in Hin. exact Hin.
  - apply List.Forall_forall. intros v Hv.
    apply in_map_iff in Hv as (r' & <- & Hr').
    apply filter_In in Hr' as [Hr' _]. now apply Hpos.
Qed.
End GroupByFacts.

(* ------------------------------------------------------------------ *)
(** ** The pipeline: cleaning, join, aggregation *)

Lemma clean_payments_In (raw : list raw_payment) (p : payment) :
  In p (clean_payments raw) <-> exists r, In r raw /\ clean_row r = Some p.
Proof.
  unfold clean_payments. rewrite <- list_elem_of_In, list_elem_of_omap.
  split; intros (r & H1 & H2); exists r; split; auto; now apply list_elem_of_In.
Qed.

Lemma clean_row_positive (r : raw_payment) (p : payment) :
  clean_row r = Some p -> 0 < payment_amount p.
Proof.
  unfold clean_row. destruct (Total_Amount_of_Payment_USDollars r) as [a|]; [|discriminate].
  destruct (Qltb 0 a) eqn:E; [|discriminate].
  intros [= <-]. simpl. now apply Qltb_lt.
Qed.

Lemma clean_payments_positive (raw : list raw_payment) (p : payment) :
  In p (clean_payments raw) -> 0 < payment_amount p.
Proof.
  intros H. apply clean_payments_In in H as (r & _ & Hr).
  eapply clean_row_positive, Hr.
Qed.

Lemma state_summary_positive (raw : list raw_payment) (l : string * Q) :
  In l (state_summary (clean_payments raw)) -> 0 < snd l.
Proof.
  unfold state_summary. intros H. apply groupby_sum_In in H as [Hk ->].
  eapply group_sum_pos; [|exact Hk]. apply clean_payments_positive.
Qed.

Lemma map_data_In (ps : list payment) (acs : list policy_row) (row : map_row) :
  In row (map_data ps acs) <->
  exists l r, In l (state_summary ps) /\ In r acs /\
              state_abbr r = Some (fst l) /\ row = merge_row l r.
Proof.
  unfold map_data. rewrite in_flat_map. split.
  - intros (l & Hl & Hrow). apply in_map_iff in Hrow as (r & <- & Hr).
    apply filter_In in Hr as [Hr Hab]. apply bool_decide_eq_true in Hab.
    now exists l, r.
  - intros (l & r & Hl & Hr & Hab & ->). exists l. split; [exact Hl|].
    apply in_map, filter_In. split; [exact Hr|]. now apply bool_decide_eq_true.
Qed.

(** Every amount of the detail table is a sum of positive payments. *)
Lemma detail_data_positive (raw : list raw_payment) :
  Forall (fun d => 0 < d_payment_amount d) (detail_data (clean_payments raw)).
Proof.
  apply List.Forall_forall. intros d Hd. unfold detail_data in Hd.
  apply in_map_iff in Hd as (g & <- & Hg). simpl.
  apply groupby_sum_In in Hg as [Hk ->].
  eapply group_sum_pos; [|exact Hk]. apply clean_payments_positive.
Qed.

(** C1, the specification's wording fails when a state's household count is
    zero: the ratio written to the state summary is plus infinity, not null. *)
Lemma payment_per_household_zero_households :
  exists acs row,
    prepare_acs read_decimal (Examples.acs_with_households "0") = Ok acs /\
    In row (map_data (clean_payments Examples.raw_payments_ex) acs) /\
    m_state row = "CA" /\
    m_total_households row = Finite 0 /\
    payment_per_household row = PosInf /\
    is_nan (payment_per_household row) = false.
Proof.
  eexists. eexists. split; [vm_compute; reflexivity|].
  split; [vm_compute; left; reflexivity|].
  repeat split.
Qed.

(** The run itself ends normally on that census table and writes the
    infinite ratio to the state summary. *)
Example run_zero_households :
  let out := run_preprocessing read_decimal
               (Examples.world_ex (Some (Examples.acs_with_households "0"))) in
  fst out = Ok tt /\
  option_map (map payment_per_household) (state_summary_file (snd out)) = Some [PosInf].
Proof. vm_compute. split; reflexivity. Qed.

(** C1, as the code has it: the ratio of a state-summary row is the IEEE
    quotient of its payment total, which is positive, by its household count:
    the exact quotient for a finite non-zero count, plus infinity for a zero
    count, null for a null count. *)
Theorem payment_per_household_ratio (raw : list raw_payment) (acs : list policy_row)
    (row : map_row) :
  In row (map_data (clean_payments raw) acs) ->
  payment_per_household row
    = cell_div (Finite (m_payment_amount row)) (m_total_households row) /\
  0 < m_payment_amount row /\
  (forall h, m_total_households row = Finite h -> ~ h == 0 ->
             payment_per_household row = Finite (m_payment_amount row / h)) /\
  (forall h, m_total_households row = Finite h -> h == 0 ->
             payment_per_household row = PosInf) /\
  (m_total_households row = NaN -> payment_per_household row = NaN).
Proof.
  intros H. apply map_data_In in H as (l & r & Hl & _ & _ & ->).
  apply state_summary_positive in Hl. simpl.
  split; [reflexivity|]. split; [exact Hl|].
  split; [|split].
  - intros h -> Hh.
    destruct (Qeq_bool h 0) eqn:E; [apply Qeq_bool_iff in E; contradiction | reflexivity].
  - intros h -> Hh. apply Qeq_bool_iff in Hh. rewrite Hh.
    destruct (Qeq_bool (snd l) 0) eqn:E; [apply Qeq_bool_iff in E; lra|].
    apply Qltb_lt in Hl. now rewrite Hl.
  - intros ->. reflexivity.
Qed.

Lemma payment_per_household_ratio_witness :
  In Examples.ca_summary_row
     (map_data (clean_payments Examples.raw_payments_ex) [Examples.ca_census_row]) /\
  m_payment_amount Examples.ca_summary_row == 1000 /\
  payment_per_household Examples.ca_summary_row
    = Finite (m_payment_amount Examples.ca_summary_row / 2).
Proof.
  assert (Hin : In Examples.ca_summary_row
                   (map_data (clean_payments Examples.raw_payments_ex)
                             [Examples.ca_census_row]))
    by (vm_compute; left; reflexivity).
  split; [exact Hin|]. split; [reflexivity|].
  apply (proj1 (proj2 (proj2 (payment_per_household_ratio _ _ _ Hin))));
    [reflexivity | discriminate].
Defined.

Lemma filter_app_length {A : Type} (f : A -> bool) (l1 l2 : list A) :
  length (List.filter f (l1 ++ l2)) =
  (length (List.filter f l1) + length (List.filter f l2))%nat.
Proof. now rewrite List.filter_app, length_app. Qed.

Lemma rows_of_state_merge (s k : string) (v : Q) (rs : list policy_row) :
  length (rows_of_state s (map (merge_row (k, v)) rs)) =
  if bool_decide (k = s) then length rs else 0%nat.
Proof.
  unfold rows_of_state. induction rs as [|r t IH]; simpl.
  - now destruct (bool_decide (k = s)).
  - destruct (bool_decide (k = s)); simpl; [now rewrite IH | exact IH].
Qed.

Lemma rows_of_state_join (s : string) (acs : list policy_row) (f : string -> Q)
    (keys : list string) :
  NoDup keys ->
  length (rows_of_state s
            (flat_map (fun l => map (merge_row l) (census_rows_of (fst l) acs))
                      (map (fun k => (k, f k)) keys))) =
  if bool_decide (s ∈ keys) then length (census_rows_of s acs) else 0%nat.
Proof.
  induction 1 as [|k keys Hk Hnd IH]; simpl.
  - reflexivity.
  - unfold rows_of_state in *. rewrite filter_app_length, IH.
    pose proof (rows_of_state_merge s k (f k) (census_rows_of k acs)) as Hm.
    unfold rows_of_state in Hm. rewrite Hm. clear Hm.
    destruct (decide (k = s)) as [->|Hne].
    + rewrite bool_decide_eq_true_2 by reflexivity.
      rewrite (bool_decide_eq_false_2 (s ∈ keys)) by exact Hk.
      rewrite bool_decide_eq_true_2 by (apply elem_of_cons; now left). lia.
    + rewrite (bool_decide_eq_false_2 (k = s)) by exact Hne.
      destruct (decide (s ∈ keys)) as [Hin|Hnin].
      * rewrite !bool_decide_eq_true_2;
          [reflexivity | apply elem_of_cons; now right | exact Hin].
      * rewrite !bool_decide_eq_false_2; [reflexivity | | exact Hnin].
        intros Hin. apply elem_of_cons in Hin as [?|?]; [congruence | contradiction].
Qed.

Lemma map_data_rows_of_state (s : string) (ps : list payment) (acs : list policy_row) :
  length (rows_of_state s (map_data ps acs)) =
  if bool_decide (s ∈ group_keys state String.leb ps)
  then length (census_rows_of s acs) else 0%nat.
Proof.
  unfold map_data, state_summary, groupby_sum.
  apply (rows_of_state_join s acs (group_sum state payment_amount ps)).
  apply group_keys_NoDup.
Qed.

Lemma census_rows_unique (s : string) (acs : list policy_row) :
  NoDup (omap state_abbr acs) -> in_census s acs ->
  length (census_rows_of s acs) = 1%nat.
Proof.
  unfold in_census, census_rows_of. intros Hnd (r & Hr & Hs).
  induction acs as [|a t IH]; simpl in *; [contradiction|].
  destruct (state_abbr a) as [b|] eqn:Ea.
  - apply NoDup_cons in Hnd as [Hb Hnd].
    destruct (decide (b = s)) as [->|Hne].
    + rewrite bool_decide_eq_true_2 by reflexivity. simpl. f_equal.
      destruct (List.filter _ t) as [|r' l'] eqn:Ef; [reflexivity|].
      exfalso. apply Hb. apply list_elem_of_omap. exists r'.
      assert (Hin : In r' (List.filter
                (fun r0 => bool_decide (state_abbr r0 = Some s)) t))
        by (rewrite Ef; now left).
      apply filter_In in Hin as [Hin Hab]. apply bool_decide_eq_true in Hab.
      split; [now apply list_elem_of_In | exact Hab].
    + rewrite bool_decide_eq_false_2 by congruence.
      destruct Hr as [->|Hr]; [congruence|]. now apply IH.
  - rewrite bool_decide_eq_false_2 by congruence.
    destruct Hr as [->|Hr]; [congruence|]. now apply IH.
Qed.

Lemma census_rows_none (s : string) (acs : list policy_row) :
  ~ in_census s acs -> census_rows_of s acs = [].
Proof.
  unfold in_census, census_rows_of. intros Hno.
  destruct (List.filter _ acs) as [|r l] eqn:Ef; [reflexivity|].
  exfalso. apply Hno. exists r.
  assert (Hin : In r (List.filter (fun r0 => bool_decide (state_abbr r0 = Some s)) acs))
    by (rewrite Ef; now left).
  apply filter_In in Hin as [Hin Hab]. apply bool_decide_eq_true in Hab. now split.
Qed.

Lemma detail_data_state (ps : list payment) (s : string) :
  in_payments s ps -> exists d, In d (detail_data ps) /\ d_state d = s.
Proof.
  intros (p & Hp & Hs).
  exists {| d_state := state p;
            d_specialty_clean := specialty_clean p;
            d_payment_type_clean := payment_type_clean p;
            d_payment_amount := group_sum detail_key payment_amount ps (detail_key p) |}.
  split; [|exact Hs]. unfold detail_data. apply in_map_iff.
  exists (detail_key p, group_sum detail_key payment_amount ps (detail_key p)).
  split; [reflexivity|]. apply groupby_sum_In. simpl. split; [|reflexivity].
  apply group_keys_In. now exists p.
Qed.

(* ------------------------------------------------------------------ *)
(** ** State names and abbreviations *)

Lemma state_to_abbr_Some (name abbr : string) :
  state_to_abbr !! name = Some abbr -> In name state_names /\ In abbr state_abbrs.
Proof.
  intros H. apply elem_of_list_to_map_2, list_elem_of_In in H.
  split; [apply (in_map fst) in H | apply (in_map snd) in H]; exact H.
Qed.

Lemma state_to_abbr_None (name : string) :
  ~ In name state_names -> state_to_abbr !! name = None.
Proof.
  intros H. apply not_elem_of_list_to_map_1. now rewrite list_elem_of_In.
Qed.

Lemma prepare_acs_rows (to_numeric : string -> cell) (t : acs_table)
    (acs : list policy_row) (r : policy_row) :
  prepare_acs to_numeric t = Ok acs -> In r acs ->
  state_abbr r = state_to_abbr !! state_name r /\
  exists col, In col (acs_columns t) /\
              Text.contains "!!Estimate" (fst col) = true /\
              state_name r = Text.replace "!!Estimate" "" (fst col).
Proof.
  unfold prepare_acs. intros H Hr.
  destruct (first_label _ (acs_index t)) as [income_lbl|]; [|discriminate].
  destruct (first_label _ (acs_index t)) as [hh_lbl|]; [|discriminate].
  simpl in H.
  destruct (_ ++ _)%list as [|i [|h [|]]]; try discriminate.
  injection H as <-. apply in_map_iff in Hr as (col & <- & Hcol).
  apply filter_In in Hcol as [Hcol Hest].
  split; [reflexivity|]. now exists col.
Qed.

(** C10: a census row whose state name (the column name with "!!Estimate"
    removed) is not one of the 51 names of the lookup table has a null
    abbreviation and no row of the state summary comes from it; every state of
    the state summary is one of the 51 two-letter abbreviations. *)
Theorem state_summary_states (to_numeric : string -> cell) (t : acs_table)
    (acs : list policy_row) (raw : list raw_payment) :
  prepare_acs to_numeric t = Ok acs ->
  (forall r, In r acs -> ~ In (state_name r) state_names ->
     state_abbr r = None /\
     forall m, In m (map_data (clean_payments raw) acs) ->
               m_state_name m <> state_name r) /\
  (forall m, In m (map_data (clean_payments raw) acs) ->
     In (m_state m) state_abbrs /\ String.length (m_state m) = 2%nat) /\
  length state_names = 51%nat /\ length state_abbrs = 51%nat.
Proof.
  intros Hacs. split; [|split; [|split; reflexivity]].
  - intros r Hr Hname. split.
    + destruct (prepare_acs_rows _ _ _ _ Hacs Hr) as [-> _].
      now apply state_to_abbr_None.
    + intros m Hm Heq. apply map_data_In in Hm as (l & r' & _ & Hr' & Hab & ->).
      simpl in Heq. destruct (prepare_acs_rows _ _ _ _ Hacs Hr') as [Hlook _].
      rewrite Hlook, Heq, state_to_abbr_None in Hab by exact Hname. discriminate.
  - intros m Hm. apply map_data_In in Hm as (l & r & _ & Hr & Hab & ->). simpl.
    destruct (prepare_acs_rows _ _ _ _ Hacs Hr) as [Hlook _].
    rewrite Hlook in Hab. apply state_to_abbr_Some in Hab as [_ Hin].
    split; [exact Hin|].
    assert (Hall : Forall (fun a => String.length a = 2%nat) state_abbrs).
    { unfold state_abbrs, state_to_abbr_items. simpl. repeat constructor. }
    rewrite List.Forall_forall in Hall. now apply Hall.
Qed.

Lemma state_summary_states_witness :
  exists acs,
    prepare_acs read_decimal Examples.acs_ex = Ok acs /\
    map state_abbr acs = [Some "CA"; None] /\
    map m_state (map_data (clean_payments Examples.raw_payments_ex) acs) = ["CA"] /\
    forall m, In m (map_data (clean_payments Examples.raw_payments_ex) acs) ->
              In (m_state m) state_abbrs /\ String.length (m_state m) = 2%nat.
Proof.
  eexists. split; [vm_compute; reflexivity|].
  split; [reflexivity|]. split; [vm_compute; reflexivity|].
  refine (proj1 (proj2 (state_summary_states read_decimal Examples.acs_ex _
                          Examples.raw_payments_ex _))).
  vm_compute. reflexivity.
Defined.

(* ------------------------------------------------------------------ *)
(** ** The join: the rows of one state *)

Lemma state_abbrs_distinct :
  forallb (fun x => forallb (fun y => implb (String.eqb (snd x) (snd y))
                                            (String.eqb (fst x) (fst y)))
                            state_to_abbr_items)
          state_to_abbr_items = true.
Proof. vm_compute. reflexivity. Qed.

(** No two state names share an abbreviation. *)
Lemma state_to_abbr_inj (a b abbr : string) :
  state_to_abbr !! a = Some abbr -> state_to_abbr !! b = Some abbr -> a = b.
Proof.
  intros Ha Hb. apply elem_of_list_to_map_2, list_elem_of_In in Ha, Hb.
  pose proof state_abbrs_distinct as Hd.
  rewrite forallb_forall in Hd. specialize (Hd _ Ha).
  rewrite forallb_forall in Hd. specialize (Hd _ Hb). simpl in Hd.
  rewrite String.eqb_refl in Hd. simpl in Hd. now apply String.eqb_eq in Hd.
Qed.

(** Census rows of distinct state names have distinct abbreviations. *)
Lemma census_abbrs_distinct (acs : list policy_row) :
  (forall r, In r acs -> state_abbr r = state_to_abbr !! state_name r) ->
  NoDup (map state_name acs) -> NoDup (omap state_abbr acs).
Proof.
  induction acs as [|a t IH]; intros Hlook Hnd; [constructor|].
  change (map state_name (a :: t)) with (state_name a :: map state_name t) in Hnd.
  apply NoDup_cons in Hnd as [Ha Hnd].
  assert (IH' : NoDup (omap state_abbr t)).
  { apply IH; [|exact Hnd]. intros r Hr. apply Hlook. now right. }
  change (omap state_abbr (a :: t))
    with (match state_abbr a with
          | Some b => b :: omap state_abbr t
          | None => omap state_abbr t
          end).
  destruct (state_abbr a) as [b|] eqn:Eb; [|exact IH'].
  apply NoDup_cons. split; [|exact IH'].
  intros Hin. apply list_elem_of_omap in Hin as (r & Hr & Hrb).
  apply list_elem_of_In in Hr.
  apply Ha. apply list_elem_of_In, in_map_iff. exists r. split; [|exact Hr].
  apply (state_to_abbr_inj _ _ b).
  - rewrite <- (Hlook r) by now right. exact Hrb.
  - rewrite <- (Hlook a) by now left. exact Eb.
Qed.

(** C7, the specification's wording fails on a census table with two
    estimate columns that read as the same state: the payments of Utah meet
    both of them, and the state summary has two rows for the one state. *)
Lemma state_summary_two_utah_rows :
  exists acs,
    prepare_acs read_decimal acs_utah_twice = Ok acs /\
    map state_name acs = ["Utah"; "Utah"] /\
    in_payments "UT" (clean_payments raw_payments_utah) /\
    in_census "UT" acs /\
    map m_state (map_data (clean_payments raw_payments_utah) acs) = ["UT"; "UT"] /\
    length (rows_of_state "UT" (map_data (clean_payments raw_payments_utah) acs))
    = 2%nat.
Proof.
  eexists. split; [vm_compute; reflexivity|].
  split; [reflexivity|].
  split; [eexists; split; [vm_compute; left; reflexivity | reflexivity]|].
  split; [eexists; split; [left; reflexivity | reflexivity]|].
  split; vm_compute; reflexivity.
Qed.

(** C7, as the code has it: a state of the payments has as many rows in the
    state summary as the census table has rows with its abbreviation, exactly
    one when the census rows bear distinct state names; a state missing from
    the payments or from the census table has none; and a state of the
    payments has a row in the detail table whether or not the census table
    knows it. *)
Theorem state_summary_join_rows (to_numeric : string -> cell) (t : acs_table)
    (acs : list policy_row) (raw : list raw_payment) (s : string) :
  prepare_acs to_numeric t = Ok acs ->
  (in_payments s (clean_payments raw) ->
   length (rows_of_state s (map_data (clean_payments raw) acs))
   = length (census_rows_of s acs)) /\
  (NoDup (map state_name acs) ->
   in_payments s (clean_payments raw) /\ in_census s acs ->
   length (rows_of_state s (map_data (clean_payments raw) acs)) = 1%nat) /\
  (~ (in_payments s (clean_payments raw) /\ in_census s acs) ->
   rows_of_state s (map_data (clean_payments raw) acs) = []) /\
  (in_payments s (clean_payments raw) ->
   exists d, In d (detail_data (clean_payments raw)) /\ d_state d = s).
Proof.
  intros Hacs.
  pose proof (map_data_rows_of_state s (clean_payments raw) acs) as Hlen.
  assert (Hcount : in_payments s (clean_payments raw) ->
                   length (rows_of_state s (map_data (clean_payments raw) acs))
                   = length (census_rows_of s acs)).
  { intros Hp. rewrite Hlen, bool_decide_eq_true_2; [reflexivity|].
    apply list_elem_of_In, group_keys_In. exact Hp. }
  split; [exact Hcount|]. split; [|split].
  - intros Hnd [Hp Hc]. rewrite (Hcount Hp).
    apply census_rows_unique; [|exact Hc].
    apply census_abbrs_distinct; [|exact Hnd].
    intros r Hr. now destruct (prepare_acs_rows _ _ _ _ Hacs Hr) as [Hlook _].
  - intros Hno. apply length_zero_iff_nil. rewrite Hlen.
    destruct (decide (s ∈ group_keys state String.leb (clean_payments raw)))
      as [Hin|Hnin].
    + rewrite bool_decide_eq_true_2 by exact Hin.
      rewrite census_rows_none; [reflexivity|].
      intros Hc. apply Hno. split; [|exact Hc].
      now apply list_elem_of_In, group_keys_In in Hin.
    + now rewrite bool_decide_eq_false_2.
  - apply detail_data_state.
Qed.

Lemma state_summary_join_rows_witness :
  exists acs,
    prepare_acs read_decimal Examples.acs_ex = Ok acs /\
    map state_name acs = ["California"; "Puerto Rico"] /\
    NoDup (map state_name acs) /\
    length (rows_of_state "CA"
              (map_data (clean_payments Examples.raw_payments_ex) acs)) = 1%nat /\
    rows_of_state "PR" (map_data (clean_payments Examples.raw_payments_ex) acs) = [] /\
    exists d, In d (detail_data (clean_payments Examples.raw_payments_ex)) /\
              d_state d = "PR".
Proof.
  assert (Hacs : prepare_acs read_decimal Examples.acs_ex
                 = Ok [ {| state_name := "California"; median_income := Finite 91905;
                           total_households := Finite 2; state_abbr := Some "CA" |};
                        {| state_name := "Puerto Rico"; median_income := Finite 25096;
                           total_households := Finite 3; state_abbr := None |} ])
    by (vm_compute; reflexivity).
  eexists. split; [exact Hacs|]. split; [reflexivity|].
  assert (Hnd : NoDup (map state_name
                   [ {| state_name := "California"; median_income := Finite 91905;
                        total_households := Finite 2; state_abbr := Some "CA" |};
                     {| state_name := "Puerto Rico"; median_income := Finite 25096;
                        total_households := Finite 3; state_abbr := None |} ])).
  { cbn [map state_name]. apply NoDup_cons. split; [|apply NoDup_singleton].
    intros H. apply list_elem_of_singleton in H. discriminate H. }
  split; [exact Hnd|].
  destruct (state_summary_join_rows read_decimal Examples.acs_ex _
              Examples.raw_payments_ex "CA" Hacs) as (_ & Hone & _ & _).
  destruct (state_summary_join_rows read_decimal Examples.acs_ex _
              Examples.raw_payments_ex "PR" Hacs) as (_ & _ & Hnone & Hdet).
  split; [|split].
  - apply Hone; [exact Hnd|]. split.
    + eexists. split; [vm_compute; left; reflexivity | reflexivity].
    + eexists. split; [left; reflexivity | reflexivity].
  - apply Hnone. intros [_ (r & [<-|[<-|[]]] & Hr)]; discriminate Hr.
  - apply Hdet. eexists. split; [vm_compute; right; right; left; reflexivity | reflexivity].
Defined.

(* ------------------------------------------------------------------ *)
(** ** The run and its files *)

(** C9: without the raw census file the run ends with an exception and leaves
    both derived tables as they were: neither is written.  The exception is
    [FileNotFoundError] as soon as the CMS table could be loaded. *)
Theorem missing_acs_aborts (to_numeric : string -> cell) (w : world) :
  acs_raw_file w = None ->
  exists e,
    fst (run_preprocessing to_numeric w) = Raise e /\
    state_summary_file (snd (run_preprocessing to_numeric w)) = state_summary_file w /\
    payments_details_file (snd (run_preprocessing to_numeric w))
      = payments_details_file w /\
    (cms_raw_file w <> None \/ (exists rows, cms_download w = Ok rows) ->
     e = FileNotFoundError).
Proof.
  intros Hacs. unfold run_preprocessing, load_cms, read_acs, bind, get, put, lift, ret, raise.
  destruct (cms_raw_file w) as [rows|] eqn:Hcms; simpl.
  - rewrite Hacs. simpl. exists FileNotFoundError. repeat split.
  - destruct (cms_download w) as [rows|e] eqn:Hdl; simpl.
    + rewrite Hacs. simpl. exists FileNotFoundError. repeat split.
    + exists e. repeat split. intros [H|[rows H]]; congruence.
Qed.

Lemma missing_acs_aborts_witness :
  acs_raw_file (Examples.world_ex None) = None /\
  fst (run_preprocessing read_decimal (Examples.world_ex None)) = Raise FileNotFoundError /\
  state_summary_file (snd (run_preprocessing read_decimal (Examples.world_ex None))) = None /\
  payments_details_file (snd (run_preprocessing read_decimal (Examples.world_ex None)))
    = None.
Proof.
  split; [reflexivity|].
  destruct (missing_acs_aborts read_decimal (Examples.world_ex None) eq_refl)
    as (e & He & Hs & Hd & Hfnf).
  split; [|split; [exact Hs | exact Hd]].
  rewrite He. f_equal. apply Hfnf. left. discriminate.
Defined.

(** With the census file in place the same run writes both tables. *)
Example run_writes_both_tables :
  let w := snd (run_preprocessing read_decimal (Examples.world_ex (Some Examples.acs_ex))) in
  fst (run_preprocessing read_decimal (Examples.world_ex (Some Examples.acs_ex))) = Ok tt /\
  option_map (map m_state) (state_summary_file w) = Some ["CA"] /\
  option_map (map d_state) (payments_details_file w) = Some ["CA"; "PR"].
Proof. vm_compute. repeat split. Qed.

(* ------------------------------------------------------------------ *)
(** ** The filter logic of the dashboard *)

Lemma str_in_In (s : string) (l : list string) : Text.str_in s l = true <-> In s l.
Proof.
  unfold Text.str_in. rewrite existsb_exists. split.
  - intros (x & Hx & Heq). apply String.eqb_eq in Heq. now subst.
  - intros H. exists s. split; [exact H | apply String.eqb_refl].
Qed.

Lemma wealth_eligible_states_In (df_states : list map_row) (c : controls) (s : string) :
  In s (wealth_eligible_states df_states c) <-> in_income_band df_states c s.
Proof.
  unfold wealth_eligible_states, in_income_band. rewrite in_map_iff. split.
  - intros (st & Hs & Hst). apply filter_In in Hst as [Hst Hband].
    apply andb_true_iff in Hband as [Hlo Hhi]. now exists st.
  - intros (st & Hst & Hs & Hlo & Hhi). exists st. split; [exact Hs|].
    apply filter_In. split; [exact Hst|]. apply andb_true_iff. now split.
Qed.

Lemma final_state_list_In (df_states : list map_row) (c : controls) (s : string) :
  In s (final_state_list df_states c) <->
  In s (selected_states c) /\ in_income_band df_states c s.
Proof.
  unfold final_state_list.
  now rewrite filter_In, str_in_In, wealth_eligible_states_In.
Qed.

Lemma select_rows_In (df_details : list detail_row) (df_states : list map_row)
    (c : controls) (r : detail_row) :
  In r (select_rows df_details df_states c) <->
  In r df_details /\ In (d_specialty_clean r) (selected_specialty c) /\
  In (d_state r) (selected_states c) /\ in_income_band df_states c (d_state r).
Proof.
  unfold select_rows.
  rewrite filter_In, andb_true_iff, !str_in_In, final_state_list_In. tauto.
Qed.

Lemma apply_top_percent_incl (df out : list detail_row) (tp : Q) (r : detail_row) :
  apply_top_percent df tp = Ok out -> In r out -> In r df.
Proof.
  unfold apply_top_percent. destruct (_ && _).
  - destruct (Series_quantile _ _) as [thr|]; simpl; [|discriminate].
    intros [= <-] H. now apply filter_In in H as [H _].
  - now intros [= <-].
Qed.

(** C6: a detail row is in the filtered set only if its state is among the
    selected states and also passes the income band; before the top-X% step
    the selection is exactly that conjunction (with the specialty test). *)
Theorem state_selection_and_income_band (df_details : list detail_row)
    (df_states : list map_row) (c : controls) (df : list detail_row) (r : detail_row) :
  (In r (select_rows df_details df_states c) <->
   In r df_details /\ In (d_specialty_clean r) (selected_specialty c) /\
   In (d_state r) (selected_states c) /\ in_income_band df_states c (d_state r)) /\
  (filtered_df df_details df_states c = Ok df -> In r df ->
   In (d_state r) (selected_states c) /\ in_income_band df_states c (d_state r)).
Proof.
  split; [apply select_rows_In|].
  unfold filtered_df. intros Hdf Hr.
  apply (apply_top_percent_incl _ _ _ _ Hdf), select_rows_In in Hr. tauto.
Qed.

(* ------------------------------------------------------------------ *)
(** ** Order statistics and the quantile *)

Lemma Qle_bool_total (a b : Q) : Qle_bool a b = true \/ Qle_bool b a = true.
Proof.
  destruct (Qlt_le_dec a b) as [H|H].
  - left. apply Qle_bool_iff. lra.
  - right. now apply Qle_bool_iff.
Qed.

Lemma sorted_strongly (l : list Q) :
  Sorted (fun a b => Qle_bool a b = true) l -> StronglySorted Qle l.
Proof.
  induction 1 as [|x l Hs IH Hhd]; constructor; [exact IH|].
  destruct Hhd as [|y l' Hxy]; [constructor|].
  apply Qle_bool_iff in Hxy. inversion IH as [|? ? _ Hall]; subst.
  constructor; [exact Hxy|].
  eapply List.Forall_impl; [|exact Hall]. simpl. intros z Hz. lra.
Qed.

Lemma sort_Q_sorted (xs : list Q) : StronglySorted Qle (sort Qle_bool xs).
Proof. apply sorted_strongly, sort_sorted, Qle_bool_total. Qed.

Lemma sorted_nth_le (l : list Q) :
  StronglySorted Qle l ->
  forall i j, (i <= j < length l)%nat -> nth i l 0 <= nth j l 0.
Proof.
  induction 1 as [|x l Hs IH Hall]; intros i j Hij; simpl in Hij; [lia|].
  destruct i as [|i], j as [|j]; simpl; try lra; try lia.
  - rewrite List.Forall_forall in Hall. apply Hall, nth_In. lia.
  - apply IH. lia.
Qed.

Lemma quantile_linear_interpolate (xs : list Q) (q : Q) :
  xs <> [] ->
  quantile_linear xs q =
  Finite (interpolate (sort Qle_bool xs) (Qnat (length (sort Qle_bool xs) - 1) * q)).
Proof.
  destruct xs; [congruence | reflexivity].
Qed.

Lemma floor_bounds (h : Q) (n : nat) :
  0 <= h -> h <= Qnat n ->
  (0 <= Qfloor h)%Z /\ (Z.to_nat (Qfloor h) <= n)%nat.
Proof.
  intros H0 Hn.
  assert (Hf0 : (0 <= Qfloor h)%Z).
  { change 0%Z with (Qfloor (inject_Z 0)). now apply Qfloor_resp_le. }
  split; [exact Hf0|].
  assert (Hfn : (Qfloor h <= Z.of_nat n)%Z).
  { rewrite <- (Qfloor_Z (Z.of_nat n)). now apply Qfloor_resp_le. }
  lia.
Qed.

(** The interpolated value lies between the two order statistics around it,
    and moves up with the virtual index. *)
Lemma interpolate_between (s : list Q) (h : Q) :
  StronglySorted Qle s -> s <> [] -> 0 <= h -> h <= Qnat (length s - 1) ->
  nth (Z.to_nat (Qfloor h)) s 0 <= interpolate s h /\
  interpolate s h <= nth (Nat.min (Z.to_nat (Qfloor h) + 1) (length s - 1)) s 0.
Proof.
  intros Hs Hne H0 Hn. unfold interpolate.
  destruct (floor_bounds h _ H0 Hn) as [Hf0 Hfn].
  assert (Hlen : (0 < length s)%nat) by (destruct s; [congruence | simpl; lia]).
  set (a := nth (Z.to_nat (Qfloor h)) s 0).
  set (b := nth (Nat.min (Z.to_nat (Qfloor h) + 1) (length s - 1)) s 0).
  assert (Hab : a <= b) by (apply sorted_nth_le; [exact Hs | lia]).
  pose proof (Qfloor_le h) as Hg0. pose proof (Qlt_floor h) as Hg1.
  rewrite inject_Z_plus in Hg1.
  set (g := h - inject_Z (Qfloor h)).
  assert (Hg : 0 <= g /\ g <= 1) by (unfold g; change (inject_Z 1) with 1 in Hg1; lra).
  split; nra.
Qed.


Lemma Qnat_nonneg (n : nat) : 0 <= Qnat n.
Proof. unfold Qnat. change 0 with (inject_Z 0). rewrite <- Zle_Qle. lia. Qed.

Lemma virtual_index_range (n : nat) (q : Q) :
  0 <= q -> q <= 1 -> 0 <= Qnat n * q /\ Qnat n * q <= Qnat n.
Proof. intros H0 H1. pose proof (Qnat_nonneg n). split; nra. Qed.

Lemma Series_quantile_Ok (xs : list Q) (q : Q) :
  xs <> [] -> 0 <= q -> q <= 1 ->
  Series_quantile xs q = Ok (Finite (sample_quantile xs q)).
Proof.
  intros Hne H0 H1. unfold Series_quantile.
  apply Qle_bool_iff in H0, H1. rewrite H0, H1. simpl.
  now rewrite quantile_linear_interpolate.
Qed.

Lemma sort_nonempty (xs : list Q) : xs <> [] -> sort Qle_bool xs <> [].
Proof.
  intros Hne Hs. apply Hne, length_zero_iff_nil.
  now rewrite <- (sort_length Qle_bool), Hs.
Qed.


Lemma Qceiling_cases (h : Q) :
  (inject_Z (Qfloor h) == h /\ Qceiling h = Qfloor h) \/
  (inject_Z (Qfloor h) < h /\ Qceiling h = (Qfloor h + 1)%Z).
Proof.
  pose proof (Qfloor_le h) as Hfl. pose proof (Qlt_floor h) as Hfu.
  pose proof (Qle_ceiling h) as Hcl. pose proof (Qceiling_lt h) as Hcu.
  destruct (Qlt_le_dec (inject_Z (Qfloor h)) h) as [Hlt|Hge].
  - right. split; [exact Hlt|].
    assert (Qfloor h < Qceiling h)%Z by (rewrite Zlt_Qlt; lra).
    assert (Qceiling h - 1 < Qfloor h + 1)%Z by (rewrite Zlt_Qlt; lra).
    lia.
  - left. split; [lra|].
    assert (Qfloor h <= Qceiling h)%Z by (rewrite Zle_Qle; lra).
    assert (Qceiling h - 1 < Qfloor h)%Z by (rewrite Zlt_Qlt; lra).
    lia.
Qed.

(** The quantile numpy computes is the textbook one. *)
Lemma quantile_linear_spec (xs : list Q) (q : Q) :
  0 <= q -> q <= 1 -> cell_eq (quantile_linear xs q) (spec_quantile xs q).
Proof.
  intros H0 H1. destruct xs as [|x t]; [exact I|].
  rewrite quantile_linear_interpolate by discriminate.
  unfold spec_quantile, interpolate, cell_eq.
  set (s := sort Qle_bool (x :: t)).
  set (h := Qnat (length s - 1) * q).
  destruct (virtual_index_range (length s - 1) q H0 H1) as [Hh0 Hhn].
  fold h in Hh0, Hhn.
  destruct (floor_bounds h _ Hh0 Hhn) as [Hf0 Hfn].
  destruct (Qceiling_cases h) as [[Hint ->]|[Hlt Hceil]].
  - assert (Hg : h - inject_Z (Qfloor h) == 0) by lra.
    rewrite Hg. ring.
  - rewrite Hceil.
    assert (Hc : (Qfloor h + 1 <= Z.of_nat (length s - 1))%Z).
    { rewrite <- Hceil. rewrite <- (Qceiling_Z (Z.of_nat (length s - 1))).
      now apply Qceiling_resp_le. }
    replace (Nat.min (Z.to_nat (Qfloor h) + 1) (length s - 1))
      with (Z.to_nat (Qfloor h + 1)) by lia.
    reflexivity.
Qed.

(* ------------------------------------------------------------------ *)
(** ** Order statistics without the sort *)

Lemma count_if_cons {A : Type} (f : A -> bool) (a : A) (l : list A) :
  count_if f (a :: l) = ((if f a then 1 else 0) + count_if f l)%nat.
Proof. unfold count_if. simpl. now destruct (f a). Qed.

Lemma count_if_perm {A : Type} (f : A -> bool) (l l' : list A) :
  Permutation l l' -> count_if f l = count_if f l'.
Proof.
  induction 1 as [|x l l' _ IH|x y l|l l' l'' _ IH1 _ IH2].
  - reflexivity.
  - rewrite !count_if_cons. lia.
  - rewrite !count_if_cons. lia.
  - congruence.
Qed.

Lemma count_if_mono {A : Type} (f g : A -> bool) (l : list A) :
  (forall a, In a l -> f a = true -> g a = true) ->
  (count_if f l <= count_if g l)%nat.
Proof.
  induction l as [|a l IH]; intros H; [reflexivity|].
  rewrite !count_if_cons.
  assert (IH' : (count_if f l <= count_if g l)%nat).
  { apply IH. intros b Hb. apply H. now right. }
  destruct (f a) eqn:Ef; [rewrite (H a (or_introl eq_refl) Ef)|destruct (g a)]; lia.
Qed.

Lemma count_if_none {A : Type} (f : A -> bool) (l : list A) :
  (forall a, In a l -> f a = false) -> count_if f l = 0%nat.
Proof.
  induction l as [|a l IH]; intros H; [reflexivity|].
  rewrite count_if_cons, (H a (or_introl eq_refl)), IH; [reflexivity|].
  intros b Hb. apply H. now right.
Qed.

Lemma order_statistic_sorted (s : list Q) :
  StronglySorted Qle s ->
  forall k, (k < length s)%nat -> is_order_statistic s k (nth k s 0).
Proof.
  induction 1 as [|a s Hs IH Hall]; intros k Hk; simpl in Hk; [lia|].
  rewrite List.Forall_forall in Hall.
  destruct k as [|k]; simpl nth.
  - split; [now left|]. split.
    + rewrite count_if_none; [lia|].
      intros x [<-|Hx]; unfold Qltb; apply negb_false_iff, Qle_bool_iff;
        [lra | now apply Hall].
    + rewrite count_if_cons.
      replace (Qle_bool a a) with true by (symmetry; apply Qle_bool_iff; lra). lia.
  - destruct (IH k ltac:(lia)) as (Hin & Hlt & Hle).
    split; [now right|]. rewrite !count_if_cons. split.
    + destruct (Qltb a (nth k s 0)); lia.
    + replace (Qle_bool a (nth k s 0)) with true; [lia|].
      symmetry. apply Qle_bool_iff. now apply Hall.
Qed.

Lemma order_statistic_perm (xs ys : list Q) (k : nat) (v : Q) :
  Permutation xs ys -> is_order_statistic xs k v -> is_order_statistic ys k v.
Proof.
  intros Hp (Hin & Hlt & Hle). split; [|split].
  - eapply Permutation_in; eassumption.
  - now rewrite <- (count_if_perm _ _ _ Hp).
  - now rewrite <- (count_if_perm _ _ _ Hp).
Qed.

(** The sorted sample holds the order statistics at their positions. *)
Lemma sort_order_statistic (xs : list Q) (k : nat) :
  (k < length xs)%nat -> is_order_statistic xs k (nth k (sort Qle_bool xs) 0).
Proof.
  intros Hk. apply (order_statistic_perm (sort Qle_bool xs)).
  - apply sort_perm.
  - apply order_statistic_sorted; [apply sort_Q_sorted | now rewrite sort_length].
Qed.

(** A position has one order statistic. *)
Lemma order_statistic_unique (xs : list Q) (k : nat) (v w : Q) :
  is_order_statistic xs k v -> is_order_statistic xs k w -> v == w.
Proof.
  assert (Hlt : forall a b, is_order_statistic xs k a -> is_order_statistic xs k b ->
                            ~ a < b).
  { intros a b (_ & _ & Ha) (_ & Hb & _) Hab.
    assert (count_if (fun x => Qle_bool x a) xs <= count_if (fun x => Qltb x b) xs)%nat.
    { apply count_if_mono. intros x _ Hx. apply Qle_bool_iff in Hx.
      apply Qltb_lt. lra. }
    lia. }
  intros Hv Hw. pose proof (Hlt v w Hv Hw). pose proof (Hlt w v Hw Hv). lra.
Qed.

(* ------------------------------------------------------------------ *)
(** ** The rounding to a double *)

Lemma pow2_pos (e : Z) : 0 < Double.pow2 e.
Proof.
  unfold Double.pow2. destruct (0 <=? e)%Z eqn:E.
  - change 0 with (inject_Z 0). rewrite <- Zlt_Qlt. apply Z.pow_pos_nonneg; lia.
  - apply Qinv_lt_0_compat. change 0 with (inject_Z 0). rewrite <- Zlt_Qlt.
    apply Z.pow_pos_nonneg; lia.
Qed.

Lemma pow2_nonpos (e : Z) :
  (e <= 0)%Z -> Double.pow2 e == / inject_Z (2 ^ (- e)).
Proof.
  intros He. unfold Double.pow2. destruct (0 <=? e)%Z eqn:E; [|reflexivity].
  assert (e = 0%Z) as -> by lia. reflexivity.
Qed.

Lemma rne_bounds (x : Q) : (Qfloor x <= Double.rne x <= Qfloor x + 1)%Z.
Proof.
  unfold Double.rne. cbv zeta.
  destruct (Qcompare _ _); [destruct (Z.even _)| |]; lia.
Qed.

Lemma rne_nonneg (x : Q) : 0 <= x -> (0 <= Double.rne x)%Z.
Proof.
  intros H. pose proof (rne_bounds x) as Hb.
  pose proof (Qfloor_resp_le _ _ H) as Hf.
  change (Qfloor 0) with 0%Z in Hf. lia.
Qed.

(** Rounding does not cross an integer. *)
Lemma rne_le (x : Q) (m : Z) : x <= inject_Z m -> (Double.rne x <= m)%Z.
Proof.
  intros H. pose proof (Qfloor_resp_le _ _ H) as Hf. rewrite Qfloor_Z in Hf.
  pose proof (rne_bounds x) as Hb.
  destruct (Z.eq_dec (Qfloor x) m) as [E|E]; [|lia].
  unfold Double.rne. cbv zeta.
  assert (Hlt : x - inject_Z (Qfloor x) < 1 # 2).
  { pose proof (Qfloor_le x) as Hfl. rewrite E in *. lra. }
  destruct (Qcompare_spec (x - inject_Z (Qfloor x)) (1 # 2)); [lra | lia | lra].
Qed.

Lemma ilog2_small (y : Q) (n : Z) :
  0 < y -> y <= inject_Z n -> (n < 2 ^ 52)%Z -> (Double.ilog2 y <= 52)%Z.
Proof.
  intros Hpos Hle Hn.
  assert (Hl : (Z.log2 (Qnum y) - Z.log2 (Zpos (Qden y)) <= 52)%Z).
  { destruct y as [a d]. unfold Qlt, Qle in Hpos, Hle.
    cbn [Qnum Qden inject_Z] in *.
    assert (Ha : (0 < a)%Z) by lia.
    pose proof (Z.log2_spec (Zpos d) ltac:(lia)) as [_ Hd].
    pose proof (Z.log2_nonneg (Zpos d)) as Hd0.
    assert (Hlt : (a < 2 ^ (53 + Z.log2 (Zpos d)))%Z).
    { replace (53 + Z.log2 (Zpos d))%Z with (52 + Z.succ (Z.log2 (Zpos d)))%Z by lia.
      rewrite Z.pow_add_r by lia.
      assert (Hn0 : (0 < n)%Z).
      { destruct (Z.lt_ge_cases 0 n) as [Hp|Hp]; [exact Hp|].
        assert (n * Zpos d <= 0)%Z by (apply Z.mul_nonpos_nonneg; lia). lia. }
      assert (Hle' : (a <= n * Zpos d)%Z) by lia.
      assert (Hnd : (n * Zpos d < 2 ^ 52 * 2 ^ Z.succ (Z.log2 (Zpos d)))%Z).
      { apply Z.mul_lt_mono_nonneg; lia. }
      lia. }
    apply Z.log2_lt_pow2 in Hlt; lia. }
  unfold Double.ilog2. cbv zeta. destruct (Qle_bool _ _); lia.
Qed.

Lemma round64_compat (x y : Q) : x == y -> Double.round64 x = Double.round64 y.
Proof. intros H. unfold Double.round64. now rewrite (Qred_complete x y H). Qed.

Lemma round64_zero (x : Q) : x == 0 -> Double.round64 x = 0.
Proof. intros H. now rewrite (round64_compat x 0 H). Qed.

Lemma round64_nonneg (x : Q) : 0 <= x -> 0 <= Double.round64 x.
Proof.
  intros H. unfold Double.round64. cbv zeta.
  destruct (Qeq_bool (Qred x) 0); [lra|].
  rewrite Qred_correct.
  set (e := Z.max _ _).
  pose proof (pow2_pos e) as Hp.
  assert (Hq : 0 <= Qred x / Double.pow2 e).
  { apply Qle_shift_div_l; [exact Hp|]. rewrite Qred_correct. lra. }
  apply rne_nonneg in Hq. rewrite Zle_Qle in Hq. change (inject_Z 0) with 0 in Hq.
  nra.
Qed.

(** A value of at most a small integer rounds to at most that integer. *)
Lemma round64_le (x : Q) (n : Z) :
  0 <= x -> x <= inject_Z n -> (n < 2 ^ 52)%Z -> Double.round64 x <= inject_Z n.
Proof.
  intros H0 Hn Hsmall. unfold Double.round64. cbv zeta.
  destruct (Qeq_bool (Qred x) 0) eqn:Ez; [lra|].
  apply Qeq_bool_neq in Ez.
  rewrite Qred_correct.
  pose proof (Qred_correct x) as Hy. set (y := Qred x) in *.
  assert (Hypos : 0 < y) by (apply Qle_lteq in H0 as [H0|H0]; [lra | rewrite Hy in Ez; lra]).
  assert (Habs : Qabs y == y) by (apply Qabs_pos; lra).
  assert (He : (Double.ilog2 (Qabs y) <= 52)%Z).
  { apply (ilog2_small _ n); [rewrite Habs; exact Hypos | rewrite Habs; lra | exact Hsmall]. }
  set (e := Z.max _ _).
  assert (He0 : (e <= 0)%Z) by (unfold e; lia).
  pose proof (pow2_pos e) as Hp. pose proof (pow2_nonpos e He0) as Hpe.
  assert (Hk : (0 < 2 ^ (- e))%Z) by (apply Z.pow_pos_nonneg; lia).
  assert (HkQ : 0 < inject_Z (2 ^ (- e))).
  { change 0 with (inject_Z 0). now rewrite <- Zlt_Qlt. }
  assert (Hinv : Double.pow2 e * inject_Z (2 ^ (- e)) == 1).
  { rewrite Hpe. field. lra. }
  assert (Hr : (Double.rne (y / Double.pow2 e) <= n * 2 ^ (- e))%Z).
  { apply rne_le. rewrite inject_Z_mult.
    apply Qle_shift_div_r; [exact Hp|]. nra. }
  rewrite Zle_Qle, inject_Z_mult in Hr.
  nra.
Qed.

Example round64_examples :
  Double.round64 (1 # 10) = 3602879701896397 # 36028797018963968 /\
  Double.round64 (3 # 10) = 5404319552844595 # 18014398509481984 /\
  Double.div 70 100 = 3152519739159347 # 4503599627370496 /\
  Double.round64 (65 # 2) = 65 # 2 /\
  Double.round64 (inject_Z (2 ^ 53 + 1)) = inject_Z (2 ^ 53) /\
  Double.round64 (inject_Z (2 ^ 53 + 3)) = inject_Z (2 ^ 53 + 4) /\
  Double.round64 (1 # 2 ^ 1074) = 1 # 2 ^ 1074 /\
  Double.round64 (1 # 2 ^ 1075) = 0 /\
  Double.round64 (3 # 2 ^ 1075) = 1 # 2 ^ 1073 /\
  Double.round64 (- (1 # 3)) = - (6004799503160661 # 18014398509481984).
Proof. vm_compute. repeat split. Qed.

(** The quantile level of the top-percent step is one pandas accepts, and
    stays one on its way through [np.percentile]. *)
Lemma top_percent_level (tp : Q) :
  0 <= tp -> tp < 100 ->
  0 <= Double.sub 1 (Double.div tp 100) /\ Double.sub 1 (Double.div tp 100) <= 1.
Proof.
  intros H0 H100. unfold Double.sub, Double.div.
  assert (Hd0 : 0 <= tp / 100) by (apply Qle_shift_div_l; lra).
  assert (Hd1 : tp / 100 <= inject_Z 1) by (apply Qle_shift_div_r; change (inject_Z 1) with 1; lra).
  pose proof (round64_nonneg _ Hd0) as Ht0.
  pose proof (round64_le _ 1 Hd0 Hd1 ltac:(reflexivity)) as Ht1.
  change (inject_Z 1) with 1 in Ht1.
  split.
  - apply round64_nonneg. lra.
  - apply (round64_le _ 1); [lra | change (inject_Z 1) with 1; lra | reflexivity].
Qed.

Lemma percentile_level (q : Q) :
  0 <= q -> q <= 1 ->
  0 <= Double.div (Double.mul q 100) 100 /\ Double.div (Double.mul q 100) 100 <= 1.
Proof.
  intros H0 H1. unfold Double.mul, Double.div.
  assert (Hp0 : 0 <= q * 100) by lra.
  assert (Hp1 : q * 100 <= inject_Z 100) by (change (inject_Z 100) with 100; lra).
  pose proof (round64_nonneg _ Hp0) as Hr0.
  pose proof (round64_le _ 100 Hp0 Hp1 ltac:(reflexivity)) as Hr1.
  change (inject_Z 100) with 100 in Hr1.
  assert (Hd0 : 0 <= Double.round64 (q * 100) / 100) by (apply Qle_shift_div_l; lra).
  assert (Hd1 : Double.round64 (q * 100) / 100 <= inject_Z 1).
  { apply Qle_shift_div_r; change (inject_Z 1) with 1; lra. }
  split.
  - now apply round64_nonneg.
  - now apply (round64_le _ 1).
Qed.

(** Where no step rounds, [_lerp] is the interpolation [a + t (b - a)]. *)
Lemma lerp_exact (a b t : Q) :
  lerp_unrounded a b t -> lerp a b t == a + t * (b - a).
Proof.
  intros (Hd & Hm1 & Ha & Ht & Hm2 & Hs). unfold is_double in *.
  unfold lerp, Double.sub, Double.mul, Double.add. cbv zeta.
  destruct (Qle_bool (1 # 2) t).
  - rewrite (round64_compat (b - Double.round64 (Double.round64 (b - a) *
                                                 Double.round64 (1 - t)))
                            (b - (b - a) * (1 - t))).
    + rewrite Hs. ring.
    + rewrite (round64_compat (Double.round64 (b - a) * Double.round64 (1 - t))
                              ((b - a) * (1 - t))) by (rewrite Hd, Ht; reflexivity).
      rewrite Hm2. reflexivity.
  - rewrite (round64_compat (a + Double.round64 (Double.round64 (b - a) * t))
                            (a + (b - a) * t)).
    + rewrite Ha. ring.
    + rewrite (round64_compat (Double.round64 (b - a) * t) ((b - a) * t))
        by (rewrite Hd; reflexivity).
      rewrite Hm1. reflexivity.
Qed.

(** Between a value and itself [_lerp] has nothing to interpolate. *)
Lemma lerp_same (a t : Q) : lerp a a t = Double.round64 a.
Proof.
  unfold lerp, Double.sub, Double.mul, Double.add. cbv zeta.
  rewrite (round64_zero (a - a)) by ring.
  destruct (Qle_bool (1 # 2) t).
  - rewrite (round64_zero (0 * _)) by ring. apply round64_compat. ring.
  - rewrite (round64_zero (0 * _)) by ring. apply round64_compat. ring.
Qed.

(** The double-arithmetic quantile interpolates between the two order
    statistics around its virtual index. *)
Lemma Series_quantile_double_spec (xs : list Q) (q : Q) :
  xs <> [] -> 0 <= q -> q <= 1 ->
  let h := Double.mul (Qnat (length xs - 1)) (Double.div (Double.mul q 100) 100) in
  let k := Z.to_nat (Qfloor h) in
  0 <= h /\
  exists lo hi,
    is_order_statistic xs (Nat.min k (length xs - 1)) lo /\
    is_order_statistic xs (Nat.min (k + 1) (length xs - 1)) hi /\
    Series_quantile_double xs q
      = Ok (Finite (lerp lo hi (Double.sub h (inject_Z (Qfloor h))))).
Proof.
  intros Hne H0 H1 h k.
  destruct (percentile_level q H0 H1) as [Hq0 Hq1].
  assert (Hh0 : 0 <= h).
  { unfold h, Double.mul at 1. apply round64_nonneg.
    pose proof (Qnat_nonneg (length xs - 1)). nra. }
  split; [exact Hh0|].
  assert (Hlen : (0 < length xs)%nat) by (destruct xs; [congruence | simpl; lia]).
  assert (Hf0 : (0 <= Qfloor h)%Z).
  { change 0%Z with (Qfloor 0). now apply Qfloor_resp_le. }
  assert (HS : Series_quantile_double xs q
               = Ok (Finite
                   (lerp (take (sort Qle_bool xs) (fst (get_indexes (length xs) h)))
                         (take (sort Qle_bool xs) (snd (get_indexes (length xs) h)))
                         (Double.sub h (inject_Z (fst (get_indexes (length xs) h))))))).
  { unfold Series_quantile_double, percentile.
    apply Qle_bool_iff in H0, H1, Hq0, Hq1. rewrite H0, H1. cbn [andb].
    destruct xs as [|x t]; [congruence|].
    cbv zeta. rewrite Hq0, Hq1. cbn [andb bind_result].
    rewrite !sort_length. reflexivity. }
  unfold get_indexes in HS.
  destruct (Qle_bool (Qnat (length xs - 1)) h) eqn:Etop.
  - (* from the last position on: the largest value *)
    apply Qle_bool_iff in Etop.
    assert (Hk : (length xs - 1 <= k)%nat).
    { apply Qfloor_resp_le in Etop. unfold Qnat in Etop. rewrite Qfloor_Z in Etop.
      unfold k. lia. }
    exists (nth (length xs - 1) (sort Qle_bool xs) 0),
           (nth (length xs - 1) (sort Qle_bool xs) 0).
    replace (Nat.min k (length xs - 1)) with (length xs - 1)%nat by lia.
    replace (Nat.min (k + 1) (length xs - 1)) with (length xs - 1)%nat by lia.
    split; [apply sort_order_statistic; lia|].
    split; [apply sort_order_statistic; lia|].
    rewrite HS. cbn [fst snd]. unfold take. cbn [Z.ltb Z.compare].
    rewrite sort_length.
    replace (Z.to_nat (Z.of_nat (length xs) + -1)) with (length xs - 1)%nat by lia.
    now rewrite !lerp_same.
  - assert (Hlt : h < Qnat (length xs - 1)).
    { destruct (Qlt_le_dec h (Qnat (length xs - 1))) as [Hl|Hl]; [exact Hl|].
      apply Qle_bool_iff in Hl. congruence. }
    assert (Hneg : Qltb h 0 = false).
    { unfold Qltb. apply negb_false_iff, Qle_bool_iff. exact Hh0. }
    rewrite Hneg in HS. cbn [fst snd] in HS.
    assert (Hk : (k + 1 <= length xs - 1)%nat).
    { pose proof (Qfloor_le h) as Hfl.
      assert (Qfloor h < Z.of_nat (length xs - 1))%Z.
      { rewrite Zlt_Qlt. unfold Qnat in Hlt. lra. }
      unfold k. lia. }
    exists (nth k (sort Qle_bool xs) 0), (nth (k + 1) (sort Qle_bool xs) 0).
    replace (Nat.min k (length xs - 1)) with k by lia.
    replace (Nat.min (k + 1) (length xs - 1)) with (k + 1)%nat by lia.
    split; [apply sort_order_statistic; lia|].
    split; [apply sort_order_statistic; lia|].
    rewrite HS. unfold take.
    replace (Qfloor h <? 0)%Z with false by (symmetry; apply Z.ltb_ge; lia).
    replace (Qfloor h + 1 <? 0)%Z with false by (symmetry; apply Z.ltb_ge; lia).
    replace (Z.to_nat (Qfloor h + 1)) with (k + 1)%nat by (unfold k; lia).
    reflexivity.
Qed.

(** C3: below 100 and on a non-empty selection, the step takes the
    [1 - top_percent/100] linear-interpolation quantile of the amounts, the
    interpolation between the two order statistics around the position
    [(n-1) q], computed as the program computes it, in doubles (where no step
    of the interpolation rounds it is [lo + g (hi - lo)]), and keeps exactly
    the rows at or above it; it leaves an empty selection empty; at 100 it
    changes nothing; and of the amounts 10, 20, 30, 40 a [top_percent] of 25
    keeps 40 alone. *)
Theorem top_percent_step (df : list detail_row) (tp : Q) :
  (0 <= tp -> tp < 100 -> df <> [] ->
   let q := Double.sub 1 (Double.div tp 100) in
   let h := Double.mul (Qnat (length df - 1)) (Double.div (Double.mul q 100) 100) in
   let k := Z.to_nat (Qfloor h) in
   (0 <= q /\ q <= 1 /\ 0 <= h) /\
   exists lo hi threshold,
     is_order_statistic (amounts df) (Nat.min k (length df - 1)) lo /\
     is_order_statistic (amounts df) (Nat.min (k + 1) (length df - 1)) hi /\
     threshold = lerp lo hi (Double.sub h (inject_Z (Qfloor h))) /\
     (lerp_unrounded lo hi (Double.sub h (inject_Z (Qfloor h))) ->
      threshold == lo + Double.sub h (inject_Z (Qfloor h)) * (hi - lo)) /\
     Series_quantile_double (amounts df) q = Ok (Finite threshold) /\
     apply_top_percent_double df tp
       = Ok (List.filter (fun r => Qle_bool threshold (d_payment_amount r)) df) /\
     forall r, (exists out, apply_top_percent_double df tp = Ok out /\ In r out) <->
               In r df /\ threshold <= d_payment_amount r) /\
  apply_top_percent_double [] tp = Ok [] /\
  (tp == 100 -> apply_top_percent_double df tp = Ok df) /\
  option_map amounts
    (match apply_top_percent_double (map Examples.detail_of [10; 20; 30; 40]) 25 with
     | Ok out => Some out
     | Raise _ => None
     end) = Some [40].
Proof.
  split; [|split; [|split]].
  - intros H0 H100 Hne q h k.
    destruct (top_percent_level tp H0 H100) as [Hq0 Hq1]. fold q in Hq0, Hq1.
    assert (Hamt : amounts df <> []) by (destruct df; [congruence | discriminate]).
    destruct (Series_quantile_double_spec (amounts df) q Hamt Hq0 Hq1)
      as (Hh0 & lo & hi & Hlo & Hhi & HS).
    assert (Hl : length (amounts df) = length df) by apply length_map.
    rewrite Hl in Hh0, Hlo, Hhi, HS.
    fold h in Hh0, Hlo, Hhi, HS. fold k in Hlo, Hhi.
    split; [tauto|].
    exists lo, hi, (lerp lo hi (Double.sub h (inject_Z (Qfloor h)))).
    assert (Happly : apply_top_percent_double df tp
       = Ok (List.filter
               (fun r => Qle_bool (lerp lo hi (Double.sub h (inject_Z (Qfloor h))))
                                  (d_payment_amount r)) df)).
    { unfold apply_top_percent_double.
      apply Qltb_lt in H100. rewrite H100.
      destruct df; [congruence|]. cbn [length Nat.ltb Nat.leb andb].
      fold q. rewrite HS. reflexivity. }
    split; [exact Hlo|]. split; [exact Hhi|]. split; [reflexivity|].
    split; [apply lerp_exact|].
    split; [exact HS|]. split; [exact Happly|].
    intros r. rewrite Happly. split.
    + intros (out & [= <-] & Hr). apply filter_In in Hr as [Hr Hge].
      now apply Qle_bool_iff in Hge.
    + intros [Hr Hge]. eexists. split; [reflexivity|].
      apply filter_In. split; [exact Hr | now apply Qle_bool_iff].
  - unfold apply_top_percent_double. simpl. now rewrite andb_false_r.
  - intros H. unfold apply_top_percent_double.
    destruct (Qltb tp 100) eqn:E; [apply Qltb_lt in E; lra | reflexivity].
  - vm_compute. reflexivity.
Qed.

Lemma top_percent_step_witness :
  0 <= 25 /\ 25 < 100 /\ map Examples.detail_of [30; 10; 40; 20] <> [] /\
  exists lo hi threshold,
    is_order_statistic [30; 10; 40; 20] 2 lo /\ lo = 30 /\
    is_order_statistic [30; 10; 40; 20] 3 hi /\ hi = 40 /\
    threshold == 30 + (1 # 4) * (40 - 30) /\
    threshold = 65 # 2 /\
    apply_top_percent_double (map Examples.detail_of [30; 10; 40; 20]) 25
      = Ok (List.filter (fun r => Qle_bool threshold (d_payment_amount r))
                        (map Examples.detail_of [30; 10; 40; 20])) /\
    apply_top_percent_double (map Examples.detail_of [30; 10; 40; 20]) 25
      = Ok [Examples.detail_of 40].
Proof.
  assert (H0 : 0 <= 25) by lra.
  assert (H1 : 25 < 100) by lra.
  assert (Hne : map Examples.detail_of [30; 10; 40; 20] <> []) by discriminate.
  split; [exact H0|]. split; [exact H1|]. split; [exact Hne|].
  destruct (proj1 (top_percent_step (map Examples.detail_of [30; 10; 40; 20]) 25)
              H0 H1 Hne)
    as (_ & lo & hi & threshold & Hlo & Hhi & Hthr & Hexact & _ & Happly & _).
  assert (Elo : lo = 30).
  { destruct Hlo as (Hin & Hlt & Hle).
    destruct Hin as [<-|[<-|[<-|[<-|[]]]]]; [reflexivity|..];
      vm_compute in Hlt, Hle; lia. }
  assert (Ehi : hi = 40).
  { destruct Hhi as (Hin & Hlt & Hle).
    destruct Hin as [<-|[<-|[<-|[<-|[]]]]]; [| |reflexivity|];
      vm_compute in Hlt, Hle; lia. }
  assert (Ethr : threshold = 65 # 2).
  { rewrite Hthr, Elo, Ehi. vm_compute. reflexivity. }
  exists lo, hi, threshold.
  split; [exact Hlo|]. split; [exact Elo|].
  split; [exact Hhi|]. split; [exact Ehi|].
  split.
  { rewrite Elo, Ehi in Hexact. apply Hexact.
    repeat split; vm_compute; reflexivity. }
  split; [exact Ethr|]. split; [exact Happly|].
  rewrite Happly, Ethr. vm_compute. reflexivity.
Defined.

(** What the rounding does at 70: [1 - 70/100] is the double next above 0.3,
    the virtual index in eleven values falls just above 3, and the threshold
    just above the fourth amount.  The step keeps seven rows; the 0.3
    quantile of exact arithmetic is the fourth amount and keeps eight. *)
Example top_percent_70_in_doubles :
  Double.sub 1 (Double.div 70 100) = 1351079888211149 # 4503599627370496 /\
  Series_quantile_double amounts_eleven (Double.sub 1 (Double.div 70 100))
    = Ok (Finite (2251799813686497 # 562949953421312)) /\
  apply_top_percent_double (map Examples.detail_of amounts_eleven) 70
    = Ok (map Examples.detail_of [5000; 6000; 7000; 8000; 9000; 10000; 11000]) /\
  apply_top_percent (map Examples.detail_of amounts_eleven) 70
    = Ok (map Examples.detail_of [4; 5000; 6000; 7000; 8000; 9000; 10000; 11000]).
Proof. vm_compute. repeat split. Qed.

(* ------------------------------------------------------------------ *)
(** ** Narrowing the selection *)


Lemma filter_sum_mono (f g : detail_row -> bool) (l : list detail_row) :
  nonneg_amounts l ->
  (forall a, In a l -> f a = true -> g a = true) ->
  0 <= Qsum (amounts (List.filter f l)) /\
  Qsum (amounts (List.filter f l)) <= Qsum (amounts (List.filter g l)).
Proof.
  unfold nonneg_amounts. induction 1 as [|a t Ha Ht IH]; intros H; simpl; [lra|].
  destruct IH as [IH0 IH1]; [intros b Hb; apply H; now right|].
  destruct (f a) eqn:Ef.
  - rewrite (H a (or_introl eq_refl) Ef). simpl. lra.
  - destruct (g a); simpl; lra.
Qed.

Lemma filter_all {A : Type} (f : A -> bool) (l : list A) :
  (forall a, In a l -> f a = true) -> List.filter f l = l.
Proof.
  induction l as [|a t IH]; intros H; simpl; [reflexivity|].
  rewrite (H a (or_introl eq_refl)), IH; [reflexivity|].
  intros b Hb. apply H. now right.
Qed.







(** An amount below zero, which the detail table never holds, would let the
    total grow when the selection narrows. *)
Example narrowing_negative_amount :
  option_map total_payments
    (match apply_top_percent [Examples.detail_of (-5); Examples.detail_of 10] 50 with
     | Ok out => Some out
     | Raise _ => None
     end) = Some (10 + 0) /\
  total_payments [Examples.detail_of (-5); Examples.detail_of 10] = -5 + (10 + 0).
Proof. split; reflexivity. Qed.

Example narrowing_example :
  filtered_df Examples.df_details_ex Examples.df_states_ex
              (controls_with Examples.controls_ex 10)
    = Ok [Examples.detail "CA" "Cardiology" 40] /\
  filtered_df Examples.df_details_ex Examples.df_states_ex Examples.controls_ex
    = Ok [Examples.detail "CA" "Cardiology" 10; Examples.detail "CA" "Cardiology" 20;
          Examples.detail "CA" "Cardiology" 40].
Proof. split; vm_compute; reflexivity. Qed.

Lemma state_selection_and_income_band_witness :
  filtered_df Examples.df_details_ex Examples.df_states_ex Examples.controls_ex
    = Ok [Examples.detail "CA" "Cardiology" 10; Examples.detail "CA" "Cardiology" 20;
          Examples.detail "CA" "Cardiology" 40] /\
  In "CA" (selected_states Examples.controls_ex) /\
  in_income_band Examples.df_states_ex Examples.controls_ex "CA" /\
  In "TX" (selected_states Examples.controls_ex) /\
  ~ In (Examples.detail "TX" "Cardiology" 30)
       (select_rows Examples.df_details_ex Examples.df_states_ex Examples.controls_ex).
Proof.
  assert (Hdf : filtered_df Examples.df_details_ex Examples.df_states_ex
                  Examples.controls_ex
                = Ok [Examples.detail "CA" "Cardiology" 10;
                      Examples.detail "CA" "Cardiology" 20;
                      Examples.detail "CA" "Cardiology" 40])
    by (vm_compute; reflexivity).
  split; [exact Hdf|].
  destruct (proj2 (state_selection_and_income_band _ _ _ _
                     (Examples.detail "CA" "Cardiology" 10)) Hdf (or_introl eq_refl))
    as [Hsel Hband].
  split; [exact Hsel|]. split; [exact Hband|].
  split; [right; left; reflexivity|].
  vm_compute. intros [H|[H|[H|[]]]]; discriminate H.
Defined.

(* ------------------------------------------------------------------ *)
(** ** The top-1% share *)

Lemma cell_div_pos (a b : Q) : 0 < b -> cell_div (Finite a) (Finite b) = Finite (a / b).
Proof.
  intros Hb. unfold cell_div.
  destruct (Qeq_bool b 0) eqn:E; [apply Qeq_bool_iff in E; lra | reflexivity].
Qed.

Lemma amounts_nonempty (df : list detail_row) : 0 < total_payments df -> amounts df <> [].
Proof.
  unfold total_payments. destruct df; simpl; [lra | discriminate].
Qed.

Lemma total_payments_nonneg (df : list detail_row) :
  nonneg_amounts df -> 0 <= total_payments df.
Proof.
  intros H. unfold total_payments, amounts. apply Qsum_nonneg.
  apply List.Forall_map. exact H.
Qed.

Lemma top_1_share_positive_total (df : list detail_row) :
  0 < total_payments df ->
  top_1_share df =
  Ok (Finite (Qsum (amounts
                      (List.filter
                         (fun r => Qle_bool (sample_quantile (amounts df) (99 # 100))
                                            (d_payment_amount r)) df))
              / total_payments df)).
Proof.
  intros Hpos. unfold top_1_share.
  rewrite (proj2 (Qltb_lt _ _) Hpos).
  rewrite Series_quantile_Ok; [|now apply amounts_nonempty|lra|lra].
  unfold bind_result. now rewrite cell_div_pos.
Qed.

(** The quantile of exact arithmetic interpolates between the two order
    statistics around the position [(n-1) q]. *)
Lemma sample_quantile_order_statistics (xs : list Q) (q : Q) :
  xs <> [] -> 0 <= q -> q <= 1 ->
  let h := Qnat (length xs - 1) * q in
  let k := Z.to_nat (Qfloor h) in
  exists lo hi,
    is_order_statistic xs k lo /\
    is_order_statistic xs (Nat.min (k + 1) (length xs - 1)) hi /\
    sample_quantile xs q == lo + (h - inject_Z (Qfloor h)) * (hi - lo).
Proof.
  intros Hne H0 H1 h k.
  assert (Hlen : (0 < length xs)%nat) by (destruct xs; [congruence | simpl; lia]).
  destruct (virtual_index_range (length xs - 1) q H0 H1) as [Hh0 Hhn].
  destruct (floor_bounds _ _ Hh0 Hhn) as [_ Hk]. fold h k in Hk.
  exists (nth k (sort Qle_bool xs) 0),
         (nth (Nat.min (k + 1) (length xs - 1)) (sort Qle_bool xs) 0).
  split; [apply sort_order_statistic; lia|].
  split; [apply sort_order_statistic; lia|].
  unfold sample_quantile, interpolate. rewrite sort_length. reflexivity.
Qed.

Lemma top_1_share_nonneg (df : list detail_row) :
  nonneg_amounts df ->
  exists share,
    top_1_share df = Ok (Finite share) /\ 0 <= share /\ share <= 1 /\
    (~ total_payments df == 0 ->
     exists threshold,
       Series_quantile (amounts df) (99 # 100) = Ok (Finite threshold) /\
       cell_eq (Finite threshold) (spec_quantile (amounts df) (99 # 100)) /\
       (let h := Qnat (length df - 1) * (99 # 100) in
        let k := Z.to_nat (Qfloor h) in
        exists lo hi,
          is_order_statistic (amounts df) k lo /\
          is_order_statistic (amounts df) (Nat.min (k + 1) (length df - 1)) hi /\
          threshold == lo + (h - inject_Z (Qfloor h)) * (hi - lo)) /\
       share == Qsum (amounts (List.filter
                                 (fun r => Qle_bool threshold (d_payment_amount r)) df))
                / total_payments df).
Proof.
  intros Hnn. pose proof (total_payments_nonneg df Hnn) as Htot.
  destruct (Qlt_le_dec 0 (total_payments df)) as [Hpos|Hle].
  - rewrite (top_1_share_positive_total df Hpos).
    eexists. split; [reflexivity|].
    destruct (filter_sum_mono
                (fun r => Qle_bool (sample_quantile (amounts df) (99 # 100))
                                   (d_payment_amount r))
                (fun _ => true) df Hnn) as [Hlo Hhi]; [reflexivity|].
    rewrite (filter_all (fun _ => true)) in Hhi by reflexivity.
    fold (total_payments df) in Hhi.
    split; [apply Qle_shift_div_l; lra|].
    split; [apply Qle_shift_div_r; lra|].
    intros _. exists (sample_quantile (amounts df) (99 # 100)).
    pose proof (Series_quantile_Ok (amounts df) (99 # 100)
                  (amounts_nonempty df Hpos) ltac:(lra) ltac:(lra)) as HQ.
    split; [exact HQ|]. split; [|split; [|reflexivity]].
    + unfold Series_quantile in HQ.
      destruct (_ && _); [|discriminate]. injection HQ as <-.
      apply quantile_linear_spec; lra.
    + pose proof (sample_quantile_order_statistics (amounts df) (99 # 100)
                    (amounts_nonempty df Hpos) ltac:(lra) ltac:(lra)) as HO.
      assert (Hl : length (amounts df) = length df) by apply length_map.
      rewrite Hl in HO. exact HO.
  - exists 0. unfold top_1_share.
    destruct (Qltb 0 (total_payments df)) eqn:E; [apply Qltb_lt in E; lra|].
    split; [reflexivity|]. split; [lra|]. split; [lra|].
    intros Hnz. exfalso. apply Hnz. lra.
Qed.

Lemma filtered_df_incl (df_details : list detail_row) (df_states : list map_row)
    (c : controls) (df : list detail_row) (P : detail_row -> Prop) :
  Forall P df_details -> filtered_df df_details df_states c = Ok df -> Forall P df.
Proof.
  rewrite !List.Forall_forall. intros HP Hdf r Hr. apply HP.
  unfold filtered_df in Hdf. apply (apply_top_percent_incl _ _ _ _ Hdf) in Hr.
  now apply select_rows_In in Hr as [Hr _].
Qed.

(** C5: on the filtered set of the dashboard the share is 0 whenever the total
    is 0, so also on no rows, and nothing raises; the detail amounts being
    non-negative, the share is a number between 0 and 1, and for a non-zero
    total it is the sum of the amounts at or above the 0.99 quantile divided by
    the total.  The quantile is the interpolation, at the position
    [0.99 (n-1)], between the order statistics on either side of it. *)
Theorem top_1_share_range (df_details : list detail_row) (df_states : list map_row)
    (c : controls) (df : list detail_row) :
  filtered_df df_details df_states c = Ok df ->
  (total_payments df == 0 -> top_1_share df = Ok (Finite 0)) /\
  (df = [] -> top_1_share df = Ok (Finite 0)) /\
  (nonneg_amounts df_details ->
   exists share,
     top_1_share df = Ok (Finite share) /\ 0 <= share /\ share <= 1 /\
     (~ total_payments df == 0 ->
      exists threshold,
        Series_quantile (amounts df) (99 # 100) = Ok (Finite threshold) /\
        cell_eq (Finite threshold) (spec_quantile (amounts df) (99 # 100)) /\
        (let h := Qnat (length df - 1) * (99 # 100) in
         let k := Z.to_nat (Qfloor h) in
         exists lo hi,
           is_order_statistic (amounts df) k lo /\
           is_order_statistic (amounts df) (Nat.min (k + 1) (length df - 1)) hi /\
           threshold == lo + (h - inject_Z (Qfloor h)) * (hi - lo)) /\
        share == Qsum (amounts (List.filter
                                  (fun r => Qle_bool threshold (d_payment_amount r)) df))
                 / total_payments df)).
Proof.
  intros Hdf. split; [|split].
  - intros Hz. unfold top_1_share.
    destruct (Qltb 0 (total_payments df)) eqn:E; [apply Qltb_lt in E; lra | reflexivity].
  - intros ->. reflexivity.
  - intros Hnn. apply top_1_share_nonneg.
    exact (filtered_df_incl _ _ _ _ _ Hnn Hdf).
Qed.

Lemma top_1_share_range_witness :
  filtered_df df_details_mixed Examples.df_states_ex Examples.controls_ex
    = Ok [Examples.detail "CA" "Cardiology" 30; Examples.detail "CA" "Cardiology" 10;
          Examples.detail "CA" "Cardiology" 40; Examples.detail "CA" "Cardiology" 20] /\
  nonneg_amounts df_details_mixed /\
  exists share threshold lo hi,
    top_1_share [Examples.detail "CA" "Cardiology" 30;
                 Examples.detail "CA" "Cardiology" 10;
                 Examples.detail "CA" "Cardiology" 40;
                 Examples.detail "CA" "Cardiology" 20] = Ok (Finite share) /\
    0 <= share /\ share <= 1 /\ share == 2 # 5 /\
    is_order_statistic [30; 10; 40; 20] 2 lo /\ lo = 30 /\
    is_order_statistic [30; 10; 40; 20] 3 hi /\ hi = 40 /\
    threshold == 397 # 10.
Proof.
  assert (Hdf : filtered_df df_details_mixed Examples.df_states_ex
                  Examples.controls_ex
                = Ok [Examples.detail "CA" "Cardiology" 30;
                      Examples.detail "CA" "Cardiology" 10;
                      Examples.detail "CA" "Cardiology" 40;
                      Examples.detail "CA" "Cardiology" 20])
    by (vm_compute; reflexivity).
  assert (Hnn : nonneg_amounts df_details_mixed)
    by (repeat constructor; discriminate).
  split; [exact Hdf|]. split; [exact Hnn|].
  destruct (proj2 (proj2 (top_1_share_range _ _ _ _ Hdf)) Hnn)
    as (share & Hs & H0 & H1 & Hthr).
  assert (Hshare : share == 2 # 5).
  { vm_compute in Hs. injection Hs as <-. reflexivity. }
  destruct Hthr as (threshold & _ & _ & (lo & hi & Hlo & Hhi & Heq) & _).
  { unfold total_payments. simpl. lra. }
  assert (Elo : lo = 30).
  { destruct Hlo as (Hin & Hlt & Hle).
    destruct Hin as [<-|[<-|[<-|[<-|[]]]]]; [reflexivity|..];
      vm_compute in Hlt, Hle; lia. }
  assert (Ehi : hi = 40).
  { destruct Hhi as (Hin & Hlt & Hle).
    destruct Hin as [<-|[<-|[<-|[<-|[]]]]]; [| |reflexivity|];
      vm_compute in Hlt, Hle; lia. }
  exists share, threshold, lo, hi.
  split; [exact Hs|]. split; [exact H0|]. split; [exact H1|]. split; [exact Hshare|].
  split; [exact Hlo|]. split; [exact Elo|].
  split; [exact Hhi|]. split; [exact Ehi|].
  rewrite Heq, Elo, Ehi. vm_compute. reflexivity.
Defined.

(** Amounts below zero, which the detail table never holds, would take the
    share above 1. *)
Example top_1_share_negative_amount :
  top_1_share [Examples.detail_of (-1); Examples.detail_of 3] = Ok (Finite (3 / 2)).
Proof. vm_compute. reflexivity. Qed.

(* ------------------------------------------------------------------ *)
(** ** The Lorenz curve *)

Lemma map_fst_combine {A B : Type} (a : list A) (b : list B) :
  length a = length b -> map fst (combine a b) = a.
Proof.
  revert b. induction a as [|x a IH]; intros [|y b] H; simpl in *; try congruence.
  f_equal. apply IH. lia.
Qed.

Lemma map_snd_combine {A B : Type} (a : list A) (b : list B) :
  length a = length b -> map snd (combine a b) = b.
Proof.
  revert b. induction a as [|x a IH]; intros [|y b] H; simpl in *; try congruence.
  f_equal. apply IH. lia.
Qed.

Lemma last_map_nonempty {A B : Type} (f : A -> B) (l : list A) (d : B) (d' : A) :
  l <> [] -> List.last (map f l) d = f (List.last l d').
Proof.
  induction l as [|x t IH]; intros Hne; [congruence|].
  destruct t as [|y t']; [reflexivity|].
  change (List.last (map f (y :: t')) d = f (List.last (y :: t') d')).
  apply IH. discriminate.
Qed.

Lemma map_sorted {A B : Type} (R : A -> A -> Prop) (R' : B -> B -> Prop)
    (f : A -> B) (l : list A) :
  (forall a b, R a b -> R' (f a) (f b)) -> Sorted R l -> Sorted R' (map f l).
Proof.
  intros Hf. induction 1 as [|x l Hs IH Hhd]; simpl; constructor; [exact IH|].
  destruct Hhd; simpl; constructor. now apply Hf.
Qed.

Lemma seq_sorted (start n : nat) : Sorted lt (seq start n).
Proof.
  revert start. induction n as [|n IH]; intros start; simpl; constructor.
  - apply IH.
  - destruct n; simpl; constructor. lia.
Qed.

Lemma seq_last (n : nat) : (0 < n)%nat -> List.last (seq 1 n) 0%nat = n.
Proof.
  destruct n as [|n]; [lia|]. intros _.
  rewrite seq_S. apply last_last.
Qed.

Lemma cumsum_from_length (xs : list Q) (acc : Q) :
  length (cumsum_from acc xs) = length xs.
Proof.
  revert acc. induction xs as [|x t IH]; intros acc; simpl; [reflexivity|].
  now rewrite IH.
Qed.

Lemma cumsum_from_sorted (xs : list Q) (acc : Q) :
  Forall (fun x => 0 <= x) xs -> Sorted Qle (cumsum_from acc xs).
Proof.
  intros H. revert acc. induction H as [|x t Hx Ht IH]; intros acc; simpl;
    constructor.
  - apply IH.
  - destruct Ht as [|y t' Hy _]; simpl; constructor. lra.
Qed.

Lemma last_default {A : Type} (l : list A) (d d' : A) :
  l <> [] -> List.last l d = List.last l d'.
Proof.
  induction l as [|x t IH]; intros Hne; [congruence|].
  destruct t as [|y t']; [reflexivity|].
  change (List.last (y :: t') d = List.last (y :: t') d').
  apply IH. discriminate.
Qed.

Lemma cumsum_from_last (xs : list Q) (acc : Q) :
  List.last (cumsum_from acc xs) acc == acc + Qsum xs.
Proof.
  revert acc. induction xs as [|x t IH]; intros acc; simpl; [ring|].
  destruct t as [|y t'].
  - simpl. ring.
  - change (List.last (cumsum_from (acc + x) (y :: t')) acc == acc + (x + Qsum (y :: t'))).
    rewrite (last_default _ acc (acc + x)) by discriminate.
    rewrite IH. ring.
Qed.

Lemma Qnat_pos (n : nat) : (0 < n)%nat -> 0 < Qnat n.
Proof.
  intros H. unfold Qnat. change 0 with (inject_Z 0). rewrite <- Zlt_Qlt. lia.
Qed.

Lemma Qnat_le (a b : nat) : (a <= b)%nat -> Qnat a <= Qnat b.
Proof. intros H. unfold Qnat. rewrite <- Zle_Qle. lia. Qed.

Lemma Qdiv_le_mono (a b d : Q) : 0 < d -> a <= b -> a / d <= b / d.
Proof.
  intros Hd Hab. unfold Qdiv. apply Qmult_le_compat_r; [exact Hab|].
  apply Qlt_le_weak, Qinv_lt_0_compat, Hd.
Qed.

Lemma lorenz_points_eq (df : list detail_row) :
  df <> [] ->
  let sorted := sort amount_leb df in
  lorenz_points df =
  map (fun t => (cell_div (Finite (Qnat (snd t))) (Finite (Qnat (length sorted))),
                 cell_div (Finite (snd (fst t))) (Finite (Qsum (amounts sorted)))))
      (combine (combine sorted (cumsum (amounts sorted))) (seq 1 (length sorted))).
Proof.
  intros Hne. unfold lorenz_points, lorenz_df.
  destruct df as [|r t]; [congruence|].
  change (0 <? length (r :: t))%nat with true. cbv iota.
  now rewrite map_map.
Qed.

(** On positive amounts the Lorenz points go up in both coordinates and end
    at (1, 1). *)
Lemma lorenz_points_positive (df : list detail_row) :
  df <> [] -> positive_amounts df ->
  nondecreasing (map fst (lorenz_points df)) /\
  nondecreasing (map snd (lorenz_points df)) /\
  length (lorenz_points df) = length df /\
  exists x y,
    List.last (lorenz_points df) (NaN, NaN) = (x, y) /\
    cell_eq x (Finite 1) /\ cell_eq y (Finite 1).
Proof.
  intros Hne Hpos. rewrite (lorenz_points_eq df Hne). cbv zeta.
  set (sorted := sort amount_leb df).
  assert (Hlen : length sorted = length df) by apply sort_length.
  assert (Hn : (0 < length sorted)%nat).
  { rewrite Hlen. destruct df; [congruence | simpl; lia]. }
  assert (Hsp : Forall (fun x => 0 < x) (amounts sorted)).
  { apply List.Forall_forall. intros a Ha. apply in_map_iff in Ha as (r & <- & Hr).
    apply sort_In in Hr. unfold positive_amounts in Hpos.
    rewrite List.Forall_forall in Hpos. now apply Hpos. }
  assert (Hamt : length (amounts sorted) = length sorted) by apply length_map.
  assert (Htot : 0 < Qsum (amounts sorted)).
  { apply Qsum_pos; [|exact Hsp]. intros E. rewrite E in Hamt. simpl in Hamt. lia. }
  assert (Hcum : length (cumsum (amounts sorted)) = length sorted).
  { unfold cumsum. now rewrite cumsum_from_length. }
  assert (Hc1 : length (combine sorted (cumsum (amounts sorted))) = length sorted).
  { rewrite length_combine, Hcum. lia. }
  set (total := Qsum (amounts sorted)) in *.
  set (n := length sorted) in *.
  set (fx := fun i : nat => cell_div (Finite (Qnat i)) (Finite (Qnat n))).
  set (fy := fun c : Q => cell_div (Finite c) (Finite total)).
  set (zipped := combine (combine sorted (cumsum (amounts sorted))) (seq 1 n)).
  pose (pts := map (fun t : detail_row * Q * nat => (fx (snd t), fy (snd (fst t))))
                   zipped).
  change (nondecreasing (map fst pts) /\ nondecreasing (map snd pts) /\
          length pts = length df /\
          exists x y, List.last pts (NaN, NaN) = (x, y) /\
                      cell_eq x (Finite 1) /\ cell_eq y (Finite 1)).
  assert (Hxs : map fst pts = map fx (seq 1 n)).
  { unfold pts. rewrite map_map. simpl. rewrite <- (map_map snd fx). f_equal.
    apply map_snd_combine. now rewrite Hc1, length_seq. }
  assert (Hys : map snd pts = map fy (cumsum (amounts sorted))).
  { unfold pts. rewrite map_map. simpl.
    rewrite <- (map_map (fun t => snd (fst t)) fy). f_equal.
    rewrite <- (map_map fst snd). unfold zipped.
    rewrite map_fst_combine by now rewrite Hc1, length_seq.
    apply map_snd_combine. now rewrite Hcum. }
  pose proof (Qnat_pos n Hn) as Hnq.
  assert (Hz : pts <> []).
  { intros E. apply (f_equal (@length _)) in E. unfold pts, zipped in E.
    rewrite length_map, length_combine, Hc1, length_seq in E. simpl in E. lia. }
  split; [|split; [|split]].
  - unfold nondecreasing. rewrite Hxs.
    apply (map_sorted lt); [|apply seq_sorted].
    intros a b Hab. unfold fx, cell_le. rewrite !cell_div_pos by exact Hnq.
    simpl. apply Qle_bool_iff, Qdiv_le_mono; [exact Hnq|]. apply Qnat_le. lia.
  - unfold nondecreasing. rewrite Hys.
    apply (map_sorted Qle).
    + intros a b Hab. unfold fy, cell_le. rewrite !cell_div_pos by exact Htot.
      simpl. apply Qle_bool_iff, Qdiv_le_mono; [exact Htot | exact Hab].
    + apply cumsum_from_sorted.
      eapply List.Forall_impl; [|exact Hsp]. simpl. intros; lra.
  - unfold pts, zipped. rewrite length_map, length_combine, Hc1, length_seq. lia.
  - exists (fx n), (fy (List.last (cumsum (amounts sorted)) 0)).
    split; [|split].
    + assert (Hfx : fx n = List.last (map fx (seq 1 n)) NaN).
      { rewrite (last_map_nonempty fx _ NaN 0%nat), seq_last; [reflexivity|exact Hn|].
        destruct n; [lia | discriminate]. }
      assert (Hfy : fy (List.last (cumsum (amounts sorted)) 0)
                    = List.last (map fy (cumsum (amounts sorted))) NaN).
      { rewrite (last_map_nonempty fy _ NaN 0); [reflexivity|].
        intros E. rewrite E in Hcum. simpl in Hcum. lia. }
      rewrite Hfx, Hfy, <- Hxs, <- Hys.
      rewrite (last_map_nonempty fst _ NaN (NaN, NaN)) by exact Hz.
      rewrite (last_map_nonempty snd _ NaN (NaN, NaN)) by exact Hz.
      now destruct (List.last pts (NaN, NaN)).
    + unfold fx. rewrite cell_div_pos by exact Hnq. simpl. field. lra.
    + unfold fy. rewrite cell_div_pos by exact Htot. simpl.
      unfold cumsum. rewrite cumsum_from_last. fold total. field. lra.
Qed.

Lemma cumsum_from_nth (xs : list Q) (acc : Q) (k : nat) :
  (k < length xs)%nat ->
  nth k (cumsum_from acc xs) 0 == acc + Qsum (firstn (S k) xs).
Proof.
  revert acc k. induction xs as [|x t IH]; intros acc k Hk; simpl in Hk; [lia|].
  destruct k as [|k].
  - simpl. destruct t; simpl; ring.
  - change (nth k (cumsum_from (acc + x) t) 0 == acc + (x + Qsum (firstn (S k) t))).
    rewrite IH by lia. ring.
Qed.

Lemma lorenz_amounts_sorted (df : list detail_row) :
  Sorted Qle (lorenz_amounts df) /\ Permutation (lorenz_amounts df) (amounts df).
Proof.
  unfold lorenz_amounts, amounts. split.
  - apply (map_sorted (fun a b => amount_leb a b = true)).
    + intros a b Hab. now apply Qle_bool_iff.
    + apply sort_sorted. intros a b. apply Qle_bool_total.
  - apply Permutation_map, sort_perm.
Qed.

(** The k-th Lorenz point: the share of the first k rows among all rows, and
    the share of the k smallest amounts in the total. *)
Lemma lorenz_points_nth (df : list detail_row) (k : nat) :
  positive_amounts df -> (k < length df)%nat ->
  exists x y,
    nth k (lorenz_points df) (NaN, NaN) = (Finite x, Finite y) /\
    x == Qnat (S k) / Qnat (length df) /\
    y == Qsum (firstn (S k) (lorenz_amounts df)) / total_payments df.
Proof.
  intros Hpos Hk.
  assert (Hne : df <> []) by (destruct df; [simpl in Hk; lia | discriminate]).
  rewrite (lorenz_points_eq df Hne). cbv zeta.
  destruct (lorenz_amounts_sorted df) as [_ Hperm]. unfold lorenz_amounts in *.
  set (sorted := sort amount_leb df) in *.
  assert (Hlen : length sorted = length df) by apply sort_length.
  assert (Hamt : length (amounts sorted) = length sorted) by apply length_map.
  assert (Hcum : length (cumsum (amounts sorted)) = length sorted).
  { unfold cumsum. now rewrite cumsum_from_length. }
  assert (Htot : 0 < Qsum (amounts sorted)).
  { rewrite (Qsum_perm _ _ Hperm). apply Qsum_pos.
    - destruct df; [congruence | discriminate].
    - unfold amounts. apply List.Forall_map. exact Hpos. }
  assert (Hnq : 0 < Qnat (length sorted)) by (apply Qnat_pos; lia).
  set (g := fun t : detail_row * Q * nat =>
              (cell_div (Finite (Qnat (snd t))) (Finite (Qnat (length sorted))),
               cell_div (Finite (snd (fst t))) (Finite (Qsum (amounts sorted))))).
  set (d0 := (Examples.detail_of 0, 0, 0%nat)).
  assert (Hnth : nth k (map g (combine (combine sorted (cumsum (amounts sorted)))
                                       (seq 1 (length sorted)))) (NaN, NaN)
                 = g (nth k sorted (Examples.detail_of 0),
                      nth k (cumsum (amounts sorted)) 0, S k)).
  { rewrite (nth_indep _ (NaN, NaN) (g d0)).
    - rewrite map_nth. unfold d0.
      rewrite !combine_nth;
        [|now rewrite Hcum | now rewrite length_combine, Hcum, length_seq, Nat.min_id].
      rewrite seq_nth by lia. reflexivity.
    - rewrite length_map, !length_combine, Hcum, length_seq, !Nat.min_id. lia. }
  rewrite Hnth. unfold g. simpl fst. simpl snd.
  rewrite !cell_div_pos by assumption.
  do 2 eexists. split; [reflexivity|]. split.
  - now rewrite Hlen.
  - unfold cumsum. rewrite cumsum_from_nth by lia.
    unfold total_payments. rewrite (Qsum_perm _ _ Hperm). field.
    rewrite <- (Qsum_perm _ _ Hperm). lra.
Qed.

(** C4: on a non-empty filtered set of a detail table whose amounts are
    positive, as every sum of the pipeline's detail table is, the Lorenz
    sequence takes the amounts in ascending order, its k-th point is (k over
    the row count, sum of the k smallest amounts over the total), the
    coordinates never go down along the sequence, in x and in y, and the last
    point is (1, 1). *)
Theorem lorenz_monotone_to_one (df_details : list detail_row)
    (df_states : list map_row) (c : controls) (df : list detail_row) :
  positive_amounts df_details ->
  filtered_df df_details df_states c = Ok df -> df <> [] ->
  (Sorted Qle (lorenz_amounts df) /\ Permutation (lorenz_amounts df) (amounts df)) /\
  (forall k, (k < length df)%nat ->
     exists x y,
       nth k (lorenz_points df) (NaN, NaN) = (Finite x, Finite y) /\
       x == Qnat (S k) / Qnat (length df) /\
       y == Qsum (firstn (S k) (lorenz_amounts df)) / total_payments df) /\
  nondecreasing (map fst (lorenz_points df)) /\
  nondecreasing (map snd (lorenz_points df)) /\
  length (lorenz_points df) = length df /\
  exists x y,
    List.last (lorenz_points df) (NaN, NaN) = (x, y) /\
    cell_eq x (Finite 1) /\ cell_eq y (Finite 1).
Proof.
  intros Hpos Hdf Hne.
  pose proof (filtered_df_incl _ _ _ _ _ Hpos Hdf) as Hdfpos.
  split; [apply lorenz_amounts_sorted|].
  split; [intros k Hk; now apply lorenz_points_nth|].
  now apply lorenz_points_positive.
Qed.

Lemma lorenz_monotone_to_one_witness :
  positive_amounts df_details_mixed /\
  filtered_df df_details_mixed Examples.df_states_ex Examples.controls_ex
    = Ok (map Examples.detail_of [30; 10; 40; 20]) /\
  map Examples.detail_of [30; 10; 40; 20] <> [] /\
  lorenz_amounts (map Examples.detail_of [30; 10; 40; 20]) = [10; 20; 30; 40] /\
  Sorted Qle [10; 20; 30; 40] /\
  lorenz_points (map Examples.detail_of [30; 10; 40; 20])
    = [ (Finite (1 / 4), Finite (10 / 100)); (Finite (2 / 4), Finite (30 / 100));
        (Finite (3 / 4), Finite (60 / 100)); (Finite (4 / 4), Finite (100 / 100)) ] /\
  nondecreasing [Finite (1 / 4); Finite (2 / 4); Finite (3 / 4); Finite (4 / 4)] /\
  nondecreasing [Finite (10 / 100); Finite (30 / 100); Finite (60 / 100);
                 Finite (100 / 100)] /\
  exists x y,
    List.last (lorenz_points (map Examples.detail_of [30; 10; 40; 20])) (NaN, NaN)
      = (x, y) /\
    cell_eq x (Finite 1) /\ cell_eq y (Finite 1).
Proof.
  assert (Hpos : positive_amounts df_details_mixed)
    by (repeat constructor).
  assert (Hdf : filtered_df df_details_mixed Examples.df_states_ex Examples.controls_ex
                = Ok (map Examples.detail_of [30; 10; 40; 20]))
    by (vm_compute; reflexivity).
  assert (Hne : map Examples.detail_of [30; 10; 40; 20] <> []) by discriminate.
  split; [exact Hpos|]. split; [exact Hdf|]. split; [exact Hne|].
  destruct (lorenz_monotone_to_one _ _ _ _ Hpos Hdf Hne)
    as ((Hsorted & _) & _ & Hx & Hy & _ & Hlast).
  assert (Ha : lorenz_amounts (map Examples.detail_of [30; 10; 40; 20])
               = [10; 20; 30; 40]) by (vm_compute; reflexivity).
  assert (Hp : lorenz_points (map Examples.detail_of [30; 10; 40; 20])
               = [ (Finite (1 / 4), Finite (10 / 100));
                   (Finite (2 / 4), Finite (30 / 100));
                   (Finite (3 / 4), Finite (60 / 100));
                   (Finite (4 / 4), Finite (100 / 100)) ])
    by (vm_compute; reflexivity).
  split; [exact Ha|].
  split; [rewrite <- Ha; exact Hsorted|].
  split; [exact Hp|].
  split; [exact Hx|]. split; [exact Hy|]. exact Hlast.
Defined.

Example lorenz_points_example :
  lorenz_points (map Examples.detail_of [30; 20; 10; 40]) =
  [ (Finite (1 / 4), Finite (10 / 100)); (Finite (2 / 4), Finite (30 / 100));
    (Finite (3 / 4), Finite (60 / 100)); (Finite (4 / 4), Finite (100 / 100)) ].
Proof. vm_compute. reflexivity. Qed.

(* ------------------------------------------------------------------ *)
(** ** Cleaning: what survives and what the clean columns look like *)

Lemma clean_row_amount (r : raw_payment) :
  option_map payment_amount (clean_row r) =
  if positive_amount (Total_Amount_of_Payment_USDollars r)
  then Total_Amount_of_Payment_USDollars r else None.
Proof.
  unfold clean_row, positive_amount.
  destruct (Total_Amount_of_Payment_USDollars r) as [a|]; [|reflexivity].
  now destruct (Qltb 0 a).
Qed.

(** X1: cleaning keeps exactly the raw rows whose amount is present and above
    zero, in their order, so every cleaned amount is positive and no row is
    added. *)
Theorem cleaning_keeps_positive_rows (raw : list raw_payment) :
  map payment_amount (clean_payments raw)
    = omap Total_Amount_of_Payment_USDollars
        (List.filter (fun r => positive_amount (Total_Amount_of_Payment_USDollars r)) raw) /\
  Forall (fun p => 0 < payment_amount p) (clean_payments raw) /\
  (length (clean_payments raw) <= length raw)%nat.
Proof.
  split; [|split].
  - unfold clean_payments. induction raw as [|r t IH]; [reflexivity|].
    pose proof (clean_row_amount r) as Hr. simpl.
    destruct (clean_row r) as [p|]; simpl in Hr;
      destruct (positive_amount (Total_Amount_of_Payment_USDollars r));
      try discriminate; simpl.
    + rewrite <- Hr. f_equal. exact IH.
    + rewrite <- Hr. exact IH.
    + exact IH.
  - apply List.Forall_forall. apply clean_payments_positive.
  - unfold clean_payments. induction raw as [|r t IH]; simpl; [lia|].
    change (list_omap raw_payment payment clean_row t) with (omap clean_row t).
    destruct (clean_row r); simpl; lia.
Qed.

Lemma split_segments_no_sep (sep : ascii) (s : string) :
  Forall (no_char sep) (Text.split sep s).
Proof.
  induction s as [|c t IH]; simpl.
  - constructor; [|constructor]. intros [].
  - destruct (Ascii.eqb_spec c sep) as [->|Hne].
    + constructor; [intros [] | exact IH].
    + destruct (Text.split sep t) as [|seg rest]; inversion IH; subst.
      * constructor; [|constructor]. intros [H|[]]. congruence.
      * constructor; [|assumption]. intros [H|H]; [congruence | contradiction].
Qed.

Lemma last_Some_In {A : Type} (l : list A) (x : A) :
  List.last (map Some l) None = Some x -> In x l.
Proof.
  induction l as [|a t IH]; simpl; [discriminate|].
  destruct t as [|b t']; [intros [= <-]; now left|].
  intros H. right. now apply IH.
Qed.

Lemma lstrip_In (c : ascii) (s : string) :
  In c (list_ascii_of_string (Text.lstrip s)) -> In c (list_ascii_of_string s).
Proof.
  induction s as [|a t IH]; simpl; [tauto|].
  destruct (Text.is_space a); [intros H; right; now apply IH | tauto].
Qed.

Lemma rstrip_In (c : ascii) (s : string) :
  In c (list_ascii_of_string (Text.rstrip s)) -> In c (list_ascii_of_string s).
Proof.
  induction s as [|a t IH]; simpl; [tauto|].
  destruct (Text.rstrip t) as [|b u].
  - destruct (Text.is_space a); simpl; tauto.
  - simpl in *. tauto.
Qed.

Lemma rstrip_idempotent (s : string) : Text.rstrip (Text.rstrip s) = Text.rstrip s.
Proof.
  induction s as [|a t IH]; [reflexivity|]. simpl.
  destruct (Text.rstrip t) as [|b u] eqn:E.
  - destruct (Text.is_space a) eqn:Ea; simpl; [reflexivity | now rewrite Ea].
  - change (Text.rstrip (String a (String b u)))
      with (match Text.rstrip (String b u) with
            | EmptyString => if Text.is_space a then EmptyString
                             else String a EmptyString
            | String x y => String a (String x y)
            end).
    now rewrite IH.
Qed.

Lemma lstrip_rstrip (s : string) :
  Text.lstrip (Text.rstrip (Text.lstrip s)) = Text.rstrip (Text.lstrip s).
Proof.
  induction s as [|a t IH]; [reflexivity|]. simpl.
  destruct (Text.is_space a) eqn:Ea; [exact IH|].
  change (Text.rstrip (String a t))
    with (match Text.rstrip t with
          | EmptyString => if Text.is_space a then EmptyString
                           else String a EmptyString
          | String x y => String a (String x y)
          end).
  destruct (Text.rstrip t); rewrite ?Ea; simpl; now rewrite Ea.
Qed.

Lemma strip_idempotent (s : string) : Text.strip (Text.strip s) = Text.strip s.
Proof.
  unfold Text.strip. now rewrite lstrip_rstrip, rstrip_idempotent.
Qed.

(** X2: a clean specialty never contains the separator, and it is trimmed:
    stripping it again changes nothing. *)
Theorem specialty_clean_shape (v : option string) :
  no_char "|"%char (clean_specialty v) /\
  Text.strip (clean_specialty v) = clean_specialty v.
Proof.
  destruct v as [s|]; [|split; [solve_no_char | reflexivity]].
  unfold clean_specialty, str_strip, str_last, str_split. simpl.
  destruct (List.last (map Some (Text.split "|" s)) None) as [seg|] eqn:E; simpl.
  - split; [|apply strip_idempotent].
    apply last_Some_In in E.
    pose proof (split_segments_no_sep "|"%char s) as Hall.
    rewrite List.Forall_forall in Hall. specialize (Hall seg E).
    intros Hin. apply Hall. unfold Text.strip in Hin.
    now apply lstrip_In, rstrip_In.
  - split; [solve_no_char | reflexivity].
Qed.

Lemma nature_map_items : nature_map = list_to_map nature_items.
Proof. reflexivity. Qed.

(** X3: the clean payment type is never missing: it is the short label of a
    known long-form text, and "Other" exactly when the raw text is missing or
    is not one of the eleven known texts. *)
Theorem payment_type_clean_values (v : option string) :
  In (clean_payment_type v) ("Other" :: map snd nature_items) /\
  (forall long short, In (long, short) nature_items ->
     clean_payment_type (Some long) = short) /\
  (clean_payment_type v = "Other" <->
   v = None \/ exists s, v = Some s /\ ~ In s (map fst nature_items)).
Proof.
  assert (Hitems : forall long short, In (long, short) nature_items ->
                     nature_map !! long = Some short /\ short <> "Other").
  { intros long short H. unfold nature_items in H.
    repeat (destruct H as [H|H];
            [injection H as <- <-; split; [reflexivity | discriminate]|]).
    destruct H. }
  assert (Hlook : forall s short, nature_map !! s = Some short ->
                    In (s, short) nature_items).
  { intros s short H. rewrite nature_map_items in H.
    now apply elem_of_list_to_map_2, list_elem_of_In in H. }
  split; [|split].
  - destruct v as [s|]; [|now left]. unfold clean_payment_type. simpl.
    destruct (nature_map !! s) as [short|] eqn:E; [|now left].
    right. apply Hlook in E. now apply (in_map snd) in E.
  - intros long short H. unfold clean_payment_type. simpl.
    now rewrite (proj1 (Hitems _ _ H)).
  - destruct v as [s|]; [|split; [now left | reflexivity]].
    unfold clean_payment_type. simpl.
    destruct (nature_map !! s) as [short|] eqn:E; simpl.
    + apply Hlook in E. split.
      * intros ->. now destruct (proj2 (Hitems _ _ E)).
      * intros [H|(s' & [= <-] & Hno)]; [discriminate|].
        exfalso. apply Hno. now apply (in_map fst) in E.
    + split; [|reflexivity]. intros _. right. exists s. split; [reflexivity|].
      intros Hin.
      repeat (destruct Hin as [<-|Hin]; [vm_compute in E; discriminate E|]).
      destruct Hin.
Qed.

(* ------------------------------------------------------------------ *)
(** ** The census table: separators, column names, labels *)

Lemma replace_comma_cons (c : ascii) (t : string) :
  Text.replace "," "" (String c t) =
  if ascii_dec "," c then Text.replace "," "" t else String c (Text.replace "," "" t).
Proof.
  unfold Text.replace.
  change (Text.replace_from "," "" 0 (String c t))
    with (if String.prefix "," (String c t)
          then ("" ++ Text.replace_from "," "" (String.length "," - 1) t)%string
          else String c (Text.replace_from "," "" 0 t)).
  change (String.prefix "," (String c t))
    with (if ascii_dec "," c then String.prefix "" t else false).
  destruct (ascii_dec "," c).
  - destruct t; reflexivity.
  - reflexivity.
Qed.

Lemma replace_comma_app (a b : string) :
  Text.replace "," "" (a ++ b) = Text.replace "," "" a ++ Text.replace "," "" b.
Proof.
  induction a as [|c t IH]; [reflexivity|].
  change (String c t ++ b) with (String c (t ++ b)).
  rewrite !replace_comma_cons.
  destruct (ascii_dec "," c); [exact IH|].
  simpl append. now rewrite IH.
Qed.

Lemma replace_comma_no_comma (s : string) :
  no_char ","%char (Text.replace "," "" s).
Proof.
  unfold no_char. induction s as [|c t IH]; [intros []|].
  rewrite replace_comma_cons.
  destruct (ascii_dec "," c) as [<-|Hne]; [exact IH|].
  simpl. intros [H|H]; [congruence | contradiction].
Qed.

(** X4: the text handed to the numeric reader never holds a comma, and a
    thousands separator at any place of a cell does not change the number
    read. *)
Theorem thousands_separators_ignored (to_numeric : string -> cell) (a b : string) :
  no_char ","%char (Text.replace "," "" (a ++ "," ++ b)) /\
  numeric_at to_numeric [a ++ "," ++ b] 0 = numeric_at to_numeric [a ++ b] 0.
Proof.
  split; [apply replace_comma_no_comma|].
  unfold numeric_at. simpl nth. f_equal.
  now rewrite !replace_comma_app.
Qed.

Lemma prefix_estimate_other (c : ascii) (t : string) :
  c <> "!"%char -> String.prefix "!!Estimate" (String c t) = false.
Proof.
  intros Hc.
  change (String.prefix "!!Estimate" (String c t))
    with (if ascii_dec "!" c then String.prefix "!Estimate" t else false).
  destruct (ascii_dec "!" c); [congruence | reflexivity].
Qed.

Lemma estimate_after_name (name suffix : string) :
  no_char "!"%char name ->
  Text.contains "!!Estimate" (name ++ suffix) = Text.contains "!!Estimate" suffix /\
  Text.replace "!!Estimate" "" (name ++ suffix)
    = name ++ Text.replace "!!Estimate" "" suffix.
Proof.
  unfold no_char, Text.replace. induction name as [|c t IH]; intros Hno.
  - split; reflexivity.
  - assert (Hc : c <> "!"%char) by (intros ->; apply Hno; now left).
    destruct IH as [IHc IHr]; [intros Hin; apply Hno; now right|].
    change (String c t ++ suffix) with (String c (t ++ suffix)).
    split.
    + change (Text.contains "!!Estimate" (String c (t ++ suffix)))
        with (String.prefix "!!Estimate" (String c (t ++ suffix))
              || Text.contains "!!Estimate" (t ++ suffix)).
      now rewrite prefix_estimate_other, IHc.
    + change (Text.replace_from "!!Estimate" "" 0 (String c (t ++ suffix)))
        with (if String.prefix "!!Estimate" (String c (t ++ suffix))
              then ("" ++ Text.replace_from "!!Estimate" ""
                            (String.length "!!Estimate" - 1) (t ++ suffix))%string
              else String c (Text.replace_from "!!Estimate" "" 0 (t ++ suffix))).
      rewrite prefix_estimate_other by exact Hc. now rewrite IHr.
Qed.

Lemma append_empty (s : string) : s ++ "" = s.
Proof.
  induction s as [|c t IH]; [reflexivity|].
  change (String c (t ++ "") = String c t). now rewrite IH.
Qed.

Lemma state_names_plain :
  Forall (fun item => no_char "!"%char (fst item) /\
                      state_to_abbr !! fst item = Some (snd item))
         state_to_abbr_items.
Proof.
  unfold state_to_abbr_items.
  repeat (constructor; [split; [solve_no_char | reflexivity]|]).
  constructor.
Qed.

(** X5: for a state name without an exclamation mark, as the 51 names of the
    lookup table are, the census column "name!!Estimate" is taken as an
    estimate column and gives back the name, hence the table's abbreviation,
    while the columns "name!!Margin of Error" and "name!!Percent" are left
    out. *)
Theorem census_column_names (to_numeric : string -> cell) (name : string)
    (cells : list string) (i h : nat) :
  no_char "!"%char name ->
  is_estimate_column (name ++ "!!Estimate", cells) = true /\
  is_estimate_column (name ++ "!!Margin of Error", cells) = false /\
  is_estimate_column (name ++ "!!Percent", cells) = false /\
  state_name (policy_row_of to_numeric i h (name ++ "!!Estimate", cells)) = name /\
  state_abbr (policy_row_of to_numeric i h (name ++ "!!Estimate", cells))
    = state_to_abbr !! name /\
  Forall (fun item => no_char "!"%char (fst item) /\
                      state_to_abbr !! fst item = Some (snd item))
         state_to_abbr_items.
Proof.
  intros Hno. unfold is_estimate_column, policy_row_of. simpl fst. simpl state_name.
  simpl state_abbr. unfold map_dict.
  rewrite !(proj1 (estimate_after_name name _ Hno)).
  rewrite (proj2 (estimate_after_name name "!!Estimate" Hno)).
  change (Text.replace "!!Estimate" "" "!!Estimate") with EmptyString.
  rewrite append_empty.
  repeat split. apply state_names_plain.
Qed.

Lemma census_column_names_witness :
  no_char "!"%char "California" /\
  is_estimate_column ("California!!Estimate", ["2"; "91,905"]) = true /\
  is_estimate_column ("California!!Margin of Error", ["2"; "91,905"]) = false /\
  state_abbr (policy_row_of read_decimal 1 0 ("California!!Estimate", ["2"; "91,905"]))
    = Some "CA".
Proof.
  assert (Hno : no_char "!"%char "California") by solve_no_char.
  destruct (census_column_names read_decimal "California" ["2"; "91,905"] 1 0 Hno)
    as (He & Hm & _ & _ & Hab & _).
  split; [exact Hno|]. split; [exact He|]. split; [exact Hm|].
  transitivity (state_to_abbr !! "California"); [exact Hab | reflexivity].
Defined.

Lemma first_label_cases (fragment : string) (index : list string) :
  (exists lbl, first_label fragment index = Ok lbl /\ In lbl index /\
               Text.contains fragment lbl = true) \/
  (first_label fragment index = Raise IndexError /\ ~ has_label fragment index).
Proof.
  unfold first_label, has_label.
  destruct (List.filter (Text.contains fragment) index) as [|lbl rest] eqn:E.
  - right. split; [reflexivity|]. intros (lbl & Hin & Hc).
    assert (H : In lbl (List.filter (Text.contains fragment) index))
      by (apply filter_In; now split).
    now rewrite E in H.
  - left. exists lbl. split; [reflexivity|].
    assert (H : In lbl (List.filter (Text.contains fragment) index))
      by (rewrite E; now left).
    now apply filter_In in H.
Qed.

Lemma positions_absent (lbl : string) (from : nat) (index : list string) :
  ~ In lbl index -> positions lbl from index = [].
Proof.
  revert from. induction index as [|l t IH]; intros from Hno; [reflexivity|].
  simpl. destruct (String.eqb_spec l lbl) as [->|Hne].
  - exfalso. apply Hno. now left.
  - apply IH. intros H. apply Hno. now right.
Qed.

Lemma positions_unique (lbl : string) (from : nat) (index : list string) :
  NoDup index -> In lbl index -> exists i, positions lbl from index = [i].
Proof.
  intros Hnd. revert from. induction Hnd as [|l t Hl Hnd IH]; intros from Hin;
    [destruct Hin|].
  simpl. destruct (String.eqb_spec l lbl) as [->|Hne].
  - exists from. rewrite positions_absent; [reflexivity|].
    now rewrite <- list_elem_of_In.
  - destruct Hin as [?|Hin]; [congruence|]. now apply IH.
Qed.

(** X6: on a census table whose index labels are all text, reading it raises
    [IndexError] when no index label contains one of the two fragments; on an
    index of distinct labels that has both it succeeds, with one row per
    estimate column, in column order. *)
Theorem census_label_lookup (to_numeric : string -> cell) (t : acs_table) :
  (~ has_label "Median household income (dollars)" (acs_index t) \/
   ~ has_label "Total households" (acs_index t) ->
   prepare_acs to_numeric t = Raise IndexError) /\
  (NoDup (acs_index t) ->
   has_label "Median household income (dollars)" (acs_index t) ->
   has_label "Total households" (acs_index t) ->
   exists acs,
     prepare_acs to_numeric t = Ok acs /\
     map state_name acs
       = map (fun col => Text.replace "!!Estimate" "" (fst col))
             (List.filter is_estimate_column (acs_columns t))).
Proof.
  unfold prepare_acs.
  destruct (first_label_cases "Median household income (dollars)" (acs_index t))
    as [(il & Ei & Hil & Hic)|[Ei Hni]]; rewrite Ei; simpl bind_result;
    [|split; [reflexivity | tauto]].
  destruct (first_label_cases "Total households" (acs_index t))
    as [(hl & Eh & Hhl & Hhc)|[Eh Hnh]]; rewrite Eh; simpl bind_result;
    [|split; [reflexivity | tauto]].
  split.
  - intros [H|H]; exfalso; apply H; [now exists il | now exists hl].
  - intros Hnd _ _.
    destruct (positions_unique il 0 _ Hnd Hil) as [i ->].
    destruct (positions_unique hl 0 _ Hnd Hhl) as [h ->].
    simpl app. eexists. split; [reflexivity|].
    rewrite map_map. reflexivity.
Qed.

(** A label that occurs twice makes the two-name assignment fail. *)
Example census_label_twice :
  prepare_acs read_decimal
    {| acs_index := ["Total households"; "Total households";
                     "Median household income (dollars)"];
       acs_columns := [("California!!Estimate", ["2"; "2"; "91,905"])] |}
  = Raise ValueError.
Proof. reflexivity. Qed.

(* ------------------------------------------------------------------ *)
(** ** The run as a whole *)

Ltac unfold_run :=
  unfold run_preprocessing, load_cms, read_acs, write_state_summary,
    write_payments_details, bind, get, put, lift, ret, raise.

(** X7: a run that raises, whatever the cause (a failed download, no census
    file, a census label missing or repeated), has written neither derived
    table; a run that ends normally has written both, from the cleaned CMS rows
    it leaves in the cache file.  No run touches the census file. *)
Theorem run_all_or_nothing (to_numeric : string -> cell) (w : world) :
  let out := run_preprocessing to_numeric w in
  match fst out with
  | Raise _ =>
      state_summary_file (snd out) = state_summary_file w /\
      payments_details_file (snd out) = payments_details_file w
  | Ok _ =>
      exists raw t acs,
        cms_raw_file (snd out) = Some raw /\
        acs_raw_file w = Some t /\ prepare_acs to_numeric t = Ok acs /\
        state_summary_file (snd out) = Some (map_data (clean_payments raw) acs) /\
        payments_details_file (snd out) = Some (detail_data (clean_payments raw))
  end /\
  acs_raw_file (snd out) = acs_raw_file w.
Proof.
  cbv zeta. unfold_run.
  destruct (cms_raw_file w) as [raw|] eqn:Hcms; simpl.
  - destruct (acs_raw_file w) as [t|] eqn:Hacs; simpl;
      [|repeat split; congruence].
    destruct (prepare_acs to_numeric t) as [acs|e] eqn:Hprep; simpl;
      [|repeat split; congruence].
    split; [|congruence]. now exists raw, t, acs.
  - destruct (cms_download w) as [raw|e] eqn:Hdl; simpl;
      [|repeat split; congruence].
    destruct (acs_raw_file w) as [t|] eqn:Hacs; simpl;
      [|repeat split; congruence].
    destruct (prepare_acs to_numeric t) as [acs|e] eqn:Hprep; simpl;
      [|repeat split; congruence].
    split; [|congruence]. now exists raw, t, acs.
Qed.

(** X8: running again reproduces the outcome of the run and changes no file:
    the derived tables are written as they were, and the CMS table then comes
    from the cache file. *)
Theorem run_again_changes_nothing (to_numeric : string -> cell) (w : world) :
  run_preprocessing to_numeric (snd (run_preprocessing to_numeric w))
  = run_preprocessing to_numeric w.
Proof.
  unfold_run.
  destruct (cms_raw_file w) as [raw|] eqn:Hcms; simpl.
  - destruct (acs_raw_file w) as [t|] eqn:Hacs; simpl;
      [|now rewrite ?Hcms, ?Hacs].
    destruct (prepare_acs to_numeric t) as [acs|e] eqn:Hprep; simpl;
      repeat (rewrite ?Hcms, ?Hacs, ?Hprep; simpl); reflexivity.
  - destruct (cms_download w) as [raw|e] eqn:Hdl; simpl;
      [|now rewrite ?Hcms, ?Hdl].
    destruct (acs_raw_file w) as [t|] eqn:Hacs; simpl;
      [|now rewrite ?Hacs].
    destruct (prepare_acs to_numeric t) as [acs|e] eqn:Hprep; simpl;
      repeat (rewrite ?Hacs, ?Hprep; simpl); reflexivity.
Qed.

(** X9: the CMS cache.  With a cache file the download is never consulted:
    the outcome and the tables written are the same whatever it would answer.
    Without one, a failed download ends the run with the download's exception
    and no file written at all, and a successful one is stored in the cache
    file even when the run fails later on. *)
Theorem cms_cache_use (to_numeric : string -> cell) (w : world) :
  (forall raw d, cms_raw_file w = Some raw ->
     fst (run_preprocessing to_numeric (with_download w d))
       = fst (run_preprocessing to_numeric w) /\
     state_summary_file (snd (run_preprocessing to_numeric (with_download w d)))
       = state_summary_file (snd (run_preprocessing to_numeric w)) /\
     payments_details_file (snd (run_preprocessing to_numeric (with_download w d)))
       = payments_details_file (snd (run_preprocessing to_numeric w)) /\
     cms_raw_file (snd (run_preprocessing to_numeric w)) = Some raw) /\
  (forall e, cms_raw_file w = None -> cms_download w = Raise e ->
     run_preprocessing to_numeric w = (Raise e, w)) /\
  (forall raw, cms_raw_file w = None -> cms_download w = Ok raw ->
     cms_raw_file (snd (run_preprocessing to_numeric w)) = Some raw).
Proof.
  split; [|split].
  - intros raw d Hcms. unfold_run. unfold with_download. simpl. rewrite Hcms. simpl.
    destruct (acs_raw_file w) as [t|] eqn:Hacs; simpl; [|repeat split; congruence].
    destruct (prepare_acs to_numeric t) as [acs|e]; simpl; repeat split; congruence.
  - intros e Hcms Hdl. unfold_run. now rewrite Hcms, Hdl.
  - intros raw Hcms Hdl. unfold_run. rewrite Hcms. simpl. rewrite Hdl. simpl.
    destruct (acs_raw_file w) as [t|]; simpl; [|reflexivity].
    destruct (prepare_acs to_numeric t); reflexivity.
Qed.

Example cache_written_before_failure :
  let w := {| cms_raw_file := None;
              acs_raw_file := None;
              cms_download := Ok Examples.raw_payments_ex;
              state_summary_file := None;
              payments_details_file := None |} in
  fst (run_preprocessing read_decimal w) = Raise FileNotFoundError /\
  cms_raw_file (snd (run_preprocessing read_decimal w)) = Some Examples.raw_payments_ex.
Proof. split; reflexivity. Qed.

(* ------------------------------------------------------------------ *)
(** ** Grouped sums: nothing is lost, nothing is counted twice *)

Lemma Qsum_map_ext {A : Type} (f g : A -> Q) (l : list A) :
  (forall a, In a l -> f a == g a) -> Qsum (map f l) == Qsum (map g l).
Proof.
  induction l as [|a t IH]; intros H; simpl; [reflexivity|].
  rewrite (H a (or_introl eq_refl)), IH; [reflexivity|].
  intros b Hb. apply H. now right.
Qed.

Lemma Qsum_map_plus {A : Type} (f g : A -> Q) (l : list A) :
  Qsum (map (fun a => f a + g a) l) == Qsum (map f l) + Qsum (map g l).
Proof.
  induction l as [|a t IH]; simpl; [ring | rewrite IH; ring].
Qed.

Lemma filter_NoDup {A : Type} (f : A -> bool) (l : list A) :
  NoDup l -> NoDup (List.filter f l).
Proof.
  induction 1 as [|a t Ha Ht IH]; simpl; [constructor|].
  destruct (f a); [|exact IH].
  constructor; [|exact IH].
  rewrite list_elem_of_In, filter_In, <- list_elem_of_In. tauto.
Qed.

Lemma filter_filter_implied {A : Type} (f g : A -> bool) (l : list A) :
  (forall a, f a = true -> g a = true) ->
  List.filter f (List.filter g l) = List.filter f l.
Proof.
  intros H. induction l as [|a t IH]; simpl; [reflexivity|].
  destruct (g a) eqn:Eg; simpl.
  - now rewrite IH.
  - destruct (f a) eqn:Ef; [|exact IH].
    rewrite (H a Ef) in Eg. discriminate.
Qed.

Section GroupTotals.
Context {R K : Type} `{EqDecision K}.
Context (key : R -> K) (key_leb : K -> K -> bool) (val : R -> Q).

Lemma group_sum_cons (r : R) (t : list R) (k : K) :
  group_sum key val (r :: t) k =
  (if bool_decide (key r = k) then val r else 0) + group_sum key val t k
  \/ (bool_decide (key r = k) = false /\
      group_sum key val (r :: t) k = group_sum key val t k).
Proof.
  unfold group_sum. simpl. destruct (bool_decide (key r = k)); [now left | now right].
Qed.

Lemma group_sum_cons_eq (r : R) (t : list R) (k : K) :
  group_sum key val (r :: t) k ==
  (if bool_decide (key r = k) then val r else 0) + group_sum key val t k.
Proof.
  destruct (group_sum_cons r t k) as [->|[E ->]]; [reflexivity|].
  rewrite E. ring.
Qed.

Lemma indicator_sum (ks : list K) (k0 : K) (v : Q) :
  NoDup ks ->
  Qsum (map (fun k => if bool_decide (k0 = k) then v else 0) ks)
  == if bool_decide (k0 ∈ ks) then v else 0.
Proof.
  induction 1 as [|k ks Hk Hnd IH]; simpl; [reflexivity|].
  rewrite IH. destruct (decide (k0 = k)) as [->|Hne].
  - rewrite bool_decide_eq_true_2 by reflexivity.
    rewrite (bool_decide_eq_false_2 (k ∈ ks)) by exact Hk.
    rewrite bool_decide_eq_true_2 by (apply elem_of_cons; now left). ring.
  - rewrite (bool_decide_eq_false_2 (k0 = k)) by exact Hne.
    destruct (decide (k0 ∈ ks)) as [Hin|Hnin].
    + rewrite !bool_decide_eq_true_2;
        [ring | apply elem_of_cons; now right | exact Hin].
    + rewrite !bool_decide_eq_false_2; [ring | | exact Hnin].
      intros Hin. apply elem_of_cons in Hin as [?|?]; [congruence | contradiction].
Qed.

Lemma sum_group_sums (rows : list R) (ks : list K) :
  NoDup ks -> (forall r, In r rows -> key r ∈ ks) ->
  Qsum (map (group_sum key val rows) ks) == Qsum (map val rows).
Proof.
  intros Hnd. induction rows as [|r t IH]; intros Hks.
  - simpl. clear. induction ks as [|k ks IH]; simpl; [reflexivity|].
    rewrite IH. unfold group_sum. simpl. ring.
  - rewrite (Qsum_map_ext _ (fun k => (if bool_decide (key r = k) then val r else 0)
                                     + group_sum key val t k))
      by (intros; apply group_sum_cons_eq).
    rewrite Qsum_map_plus, indicator_sum by exact Hnd.
    rewrite bool_decide_eq_true_2 by (apply Hks; now left).
    rewrite IH by (intros r' Hr'; apply Hks; now right).
    reflexivity.
Qed.

Lemma groupby_sum_total (rows : list R) :
  Qsum (map snd (groupby_sum key key_leb val rows)) == Qsum (map val rows).
Proof.
  unfold groupby_sum. rewrite map_map. simpl.
  apply sum_group_sums; [apply group_keys_NoDup|].
  intros r Hr. apply list_elem_of_In, group_keys_In. now exists r.
Qed.

Lemma groupby_sum_keys (rows : list R) :
  map fst (groupby_sum key key_leb val rows) = group_keys key key_leb rows.
Proof.
  unfold groupby_sum. rewrite map_map. simpl. apply map_id.
Qed.
End GroupTotals.

Lemma detail_data_keys (payments : list payment) :
  map detail_row_key (detail_data payments)
  = group_keys detail_key detail_key_leb payments.
Proof.
  unfold detail_data, groupby_sum. rewrite !map_map. unfold detail_row_key. simpl.
  rewrite <- (map_id (group_keys _ _ _)) at 2.
  apply map_ext. now intros [[a b] c].
Qed.

Lemma detail_data_amounts (payments : list payment) :
  amounts (detail_data payments)
  = map (group_sum detail_key payment_amount payments)
        (group_keys detail_key detail_key_leb payments).
Proof.
  unfold amounts, detail_data, groupby_sum. now rewrite !map_map.
Qed.

(** X10: grouping loses and repeats nothing: the payment totals of the state
    groups add up to the sum of all cleaned payments, and so do the amounts of
    the detail table. *)
Theorem grouped_totals_conserved (payments : list payment) :
  Qsum (map snd (state_summary payments)) == Qsum (map payment_amount payments) /\
  total_payments (detail_data payments) == Qsum (map payment_amount payments).
Proof.
  split.
  - apply groupby_sum_total.
  - unfold total_payments. rewrite detail_data_amounts.
    apply sum_group_sums; [apply group_keys_NoDup|].
    intros r Hr. apply list_elem_of_In, group_keys_In. now exists r.
Qed.

Lemma detail_rows_of_state (s : string) (f : string * string * string -> Q)
    (ks : list (string * string * string)) :
  amounts (List.filter (fun d => bool_decide (d_state d = s))
             (map (fun g => {| d_state := fst (fst (fst g));
                               d_specialty_clean := snd (fst (fst g));
                               d_payment_type_clean := snd (fst g);
                               d_payment_amount := snd g |})
                  (map (fun k => (k, f k)) ks)))
  = map f (List.filter (fun k => bool_decide (fst (fst k) = s)) ks).
Proof.
  induction ks as [|k t IH]; [reflexivity|]. simpl.
  destruct (bool_decide (fst (fst k) = s)); simpl; now rewrite <- IH.
Qed.

(** X11: the two derived tables agree state by state: the detail amounts of a
    state add up to the payment total the state summary is built from. *)
Theorem detail_adds_up_to_state_total (payments : list payment) :
  (forall s,
     Qsum (amounts (List.filter (fun d => bool_decide (d_state d = s))
                                (detail_data payments)))
     == group_sum state payment_amount payments s) /\
  Forall (fun l =>
            Qsum (amounts (List.filter (fun d => bool_decide (d_state d = fst l))
                                       (detail_data payments)))
            == snd l)
         (state_summary payments).
Proof.
  assert (Hs : forall s,
     Qsum (amounts (List.filter (fun d => bool_decide (d_state d = s))
                                (detail_data payments)))
     == group_sum state payment_amount payments s).
  { intros s. unfold detail_data, groupby_sum. rewrite detail_rows_of_state.
    set (in_s := fun r : payment => bool_decide (state r = s)).
    set (ks := List.filter (fun k : string * string * string =>
                              bool_decide (fst (fst k) = s))
                           (group_keys detail_key detail_key_leb payments)).
    assert (Hsame : map (group_sum detail_key payment_amount payments) ks
                    = map (group_sum detail_key payment_amount
                                     (List.filter in_s payments)) ks).
    { apply map_ext_in. intros k Hk. apply filter_In in Hk as [_ Hk].
      apply bool_decide_eq_true in Hk. unfold group_sum. f_equal. f_equal.
      symmetry. apply filter_filter_implied. intros r Hr.
      apply bool_decide_eq_true in Hr. apply bool_decide_eq_true.
      subst k. exact Hk. }
    rewrite Hsame. unfold group_sum at 2. fold in_s.
    apply sum_group_sums.
    - apply filter_NoDup, group_keys_NoDup.
    - intros r Hr. apply filter_In in Hr as [Hr Hst].
      apply list_elem_of_In, filter_In. split.
      + apply group_keys_In. now exists r.
      + exact Hst. }
  split; [exact Hs|].
  apply List.Forall_forall. intros l Hl. rewrite Hs.
  unfold state_summary in Hl. apply groupby_sum_In in Hl as [_ ->]. reflexivity.
Qed.

Lemma String_leb_total (a b : string) : String.leb a b = true \/ String.leb b a = true.
Proof.
  unfold String.leb. rewrite (String.compare_antisym a b).
  destruct (String.compare b a); simpl; auto.
Qed.

Lemma detail_key_leb_total (a b : string * string * string) :
  detail_key_leb a b = true \/ detail_key_leb b a = true.
Proof.
  unfold detail_key_leb.
  rewrite (String.compare_antisym (fst (fst a)) (fst (fst b))).
  destruct (String.compare (fst (fst b)) (fst (fst a))); simpl; auto.
  rewrite (String.compare_antisym (snd (fst a)) (snd (fst b))).
  destruct (String.compare (snd (fst b)) (snd (fst a))); simpl; auto.
  apply String_leb_total.
Qed.

(** X12: each derived table has one row per group and lists its groups in
    ascending order: the states of the state totals are distinct and sorted,
    the (state, specialty, payment type) triples of the detail table are
    distinct and sorted lexicographically; every cleaned payment finds its
    state and its triple there. *)
Theorem grouped_tables_ordered (payments : list payment) :
  NoDup (map fst (state_summary payments)) /\
  Sorted string_le (map fst (state_summary payments)) /\
  NoDup (map detail_row_key (detail_data payments)) /\
  Sorted detail_key_le (map detail_row_key (detail_data payments)) /\
  (forall p, In p payments ->
     In (state p) (map fst (state_summary payments)) /\
     In (detail_key p) (map detail_row_key (detail_data payments))).
Proof.
  unfold state_summary. rewrite groupby_sum_keys, detail_data_keys.
  split; [apply group_keys_NoDup|].
  split; [apply sort_sorted, String_leb_total|].
  split; [apply group_keys_NoDup|].
  split; [apply sort_sorted, detail_key_leb_total|].
  intros p Hp. split; apply group_keys_In; now exists p.
Qed.

(* ------------------------------------------------------------------ *)
(** ** The state table of the dashboard *)

Lemma fips_keys_are_abbrs :
  Forall (fun item => Text.str_in (fst item) state_abbrs = true) fips_items.
Proof.
  unfold fips_items. repeat (constructor; [reflexivity|]). constructor.
Qed.

Lemma abbrs_have_fips : Forall (fun a => is_Some (fips_map !! a)) state_abbrs.
Proof.
  unfold state_abbrs, state_to_abbr_items. simpl map.
  repeat (constructor; [eexists; reflexivity|]). constructor.
Qed.

Lemma fips_codes_distinct :
  forallb (fun x => forallb (fun y => implb (Z.eqb (snd x) (snd y))
                                            (String.eqb (fst x) (fst y)))
                            fips_items)
          fips_items = true.
Proof. vm_compute. reflexivity. Qed.

(** X13: the FIPS table and the abbreviation table of the pipeline name the
    same 51 states, no two states share a code, and so every row of a state
    summary the pipeline produces gets a FIPS code. *)
Theorem fips_covers_state_summary (to_numeric : string -> cell) (t : acs_table)
    (acs : list policy_row) (raw : list raw_payment) :
  (forall a, is_Some (fips_map !! a) <-> In a state_abbrs) /\
  (forall a b code, fips_map !! a = Some code -> fips_map !! b = Some code -> a = b) /\
  (prepare_acs to_numeric t = Ok acs ->
   forall m, In m (map_data (clean_payments raw) acs) -> is_Some (fips_code m)).
Proof.
  assert (Hcover : forall a, is_Some (fips_map !! a) <-> In a state_abbrs).
  { intros a. split.
    - intros [code H]. apply elem_of_list_to_map_2, list_elem_of_In in H.
      pose proof fips_keys_are_abbrs as Hall. rewrite List.Forall_forall in Hall.
      apply Hall in H. now apply str_in_In in H.
    - pose proof abbrs_have_fips as Hall. rewrite List.Forall_forall in Hall.
      apply Hall. }
  split; [exact Hcover|]. split.
  - intros a b code Ha Hb.
    apply elem_of_list_to_map_2, list_elem_of_In in Ha, Hb.
    pose proof fips_codes_distinct as Hd.
    rewrite forallb_forall in Hd. specialize (Hd _ Ha).
    rewrite forallb_forall in Hd. specialize (Hd _ Hb). simpl in Hd.
    rewrite Z.eqb_refl in Hd. simpl in Hd. now apply String.eqb_eq in Hd.
  - intros Hacs m Hm. unfold fips_code. apply Hcover.
    apply map_data_In in Hm as (l & r & _ & Hr & Hab & ->). simpl.
    destruct (prepare_acs_rows _ _ _ _ Hacs Hr) as [Hlook _].
    rewrite Hlook in Hab. now apply state_to_abbr_Some in Hab as [_ Hin].
Qed.

Lemma cell_leb_refl (c : cell) : is_nan c = false -> cell_leb c c = true.
Proof.
  destruct c; simpl; try reflexivity; try discriminate.
  intros _. apply Qle_bool_iff. lra.
Qed.

Lemma cell_leb_trans (a b c : cell) :
  cell_leb a b = true -> cell_leb b c = true -> cell_leb a c = true.
Proof.
  destruct a, b, c; simpl; try reflexivity; try discriminate.
  rewrite !Qle_bool_iff. lra.
Qed.

Lemma cell_leb_not_nan (a b : cell) :
  cell_leb a b = true -> is_nan a = false /\ is_nan b = false.
Proof. destruct a, b; simpl; try discriminate; auto. Qed.

Lemma bool_eq_of_iff (x y : bool) : (x = true <-> y = true) -> x = y.
Proof.
  destruct x, y; intros [H1 H2]; try reflexivity.
  - symmetry. now apply H1.
  - now apply H2.
Qed.

Lemma cell_leb_eqb_r (x a b : cell) :
  cell_eqb a b = true -> cell_leb x a = cell_leb x b.
Proof.
  unfold cell_eqb. intros H. apply andb_true_iff in H as [Hab Hba].
  apply bool_eq_of_iff. split; intros H; eapply cell_leb_trans; eauto.
Qed.

Lemma cell_leb_eqb_l (x a b : cell) :
  cell_eqb a b = true -> cell_leb a x = cell_leb b x.
Proof.
  unfold cell_eqb. intros H. apply andb_true_iff in H as [Hab Hba].
  apply bool_eq_of_iff. split; intros H; eapply cell_leb_trans; eauto.
Qed.

Lemma count_if_le_length {A : Type} (f : A -> bool) (l : list A) :
  (count_if f l <= length l)%nat.
Proof.
  unfold count_if. induction l as [|a t IH]; simpl; [lia|].
  destruct (f a); simpl; lia.
Qed.

Lemma count_if_pos {A : Type} (f : A -> bool) (l : list A) (a : A) :
  In a l -> f a = true -> (1 <= count_if f l)%nat.
Proof.
  unfold count_if. intros Hin Hf.
  assert (H : In a (List.filter f l)) by (apply filter_In; now split).
  destruct (List.filter f l); [destruct H | simpl; lia].
Qed.

Lemma count_if_two {A : Type} (f g h : A -> bool) (l : list A) :
  (forall a, In a l -> f a = true -> g a = true -> False) ->
  (forall a, In a l -> f a = true -> h a = true) ->
  (forall a, In a l -> g a = true -> h a = true) ->
  (count_if f l + count_if g l <= count_if h l)%nat.
Proof.
  unfold count_if. induction l as [|a t IH]; intros Hd Hf Hg; simpl; [lia|].
  assert (IH' : (length (List.filter f t) + length (List.filter g t)
                 <= length (List.filter h t))%nat).
  { apply IH; intros b Hb; [apply Hd | apply Hf | apply Hg]; now right. }
  pose proof (Hd a (or_introl eq_refl)) as Hda.
  pose proof (Hf a (or_introl eq_refl)) as Hfa.
  pose proof (Hg a (or_introl eq_refl)) as Hga.
  destruct (f a), (g a); simpl.
  - exfalso. now apply Hda.
  - rewrite Hfa by reflexivity. simpl. lia.
  - rewrite Hga by reflexivity. simpl. lia.
  - destruct (h a); simpl; lia.
Qed.

Lemma Qnat_plus (a b : nat) : Qnat (a + b) == Qnat a + Qnat b.
Proof. unfold Qnat. now rewrite Nat2Z.inj_add, inject_Z_plus. Qed.

(** The rank of a value that is present: between 1 and the number of valid
    values, as a fraction of that number. *)
Lemma rank_pct_present (col : list cell) (v : cell) :
  In v col -> is_nan v = false ->
  exists p, rank_pct col v = Finite p /\ 0 < p /\ p <= 1.
Proof.
  intros Hin Hv. unfold rank_pct. rewrite Hv.
  set (valid := List.filter (fun x => negb (is_nan x)) col).
  assert (Hvalid : In v valid) by (apply filter_In; split; [exact Hin | now rewrite Hv]).
  set (less := count_if (fun x => cell_ltb x v) valid).
  set (equal := count_if (fun x => cell_eqb x v) valid).
  assert (He : (1 <= equal)%nat).
  { apply (count_if_pos _ _ v Hvalid). unfold cell_eqb.
    now rewrite cell_leb_refl. }
  assert (Hle : (less + equal <= length valid)%nat).
  { etransitivity; [|apply (count_if_le_length (fun _ => true))].
    apply count_if_two; [|reflexivity|reflexivity].
    intros x _ Hl Hq. unfold cell_ltb, cell_eqb in *.
    apply andb_true_iff in Hl as [_ Hl], Hq as [_ Hq].
    rewrite Hq in Hl. discriminate. }
  eexists. split; [reflexivity|].
  pose proof (Qnat_nonneg less) as HL.
  pose proof (Qnat_le _ _ He) as HE. change (Qnat 1) with 1 in HE.
  pose proof (Qnat_le _ _ Hle) as HN. rewrite Qnat_plus in HN.
  assert (Hn : 0 < Qnat (length valid)) by lra.
  assert (Hh : (Qnat equal + 1) / 2 == (Qnat equal + 1) * (1 # 2)) by reflexivity.
  split.
  - apply Qlt_shift_div_l; [exact Hn|]. rewrite Hh. lra.
  - apply Qle_shift_div_r; [exact Hn|]. rewrite Hh. lra.
Qed.

Lemma rank_pct_strict (col : list cell) (a b : cell) :
  In a col -> In b col -> cell_ltb a b = true ->
  exists p q, rank_pct col a = Finite p /\ rank_pct col b = Finite q /\ p < q.
Proof.
  intros Ha Hb Hab. unfold cell_ltb in Hab.
  apply andb_true_iff in Hab as [Hle Hnle]. apply negb_true_iff in Hnle.
  destruct (cell_leb_not_nan _ _ Hle) as [Hna Hnb].
  unfold rank_pct. rewrite Hna, Hnb.
  set (valid := List.filter (fun x => negb (is_nan x)) col).
  assert (Hvb : In b valid) by (apply filter_In; split; [exact Hb | now rewrite Hnb]).
  assert (Hva : In a valid) by (apply filter_In; split; [exact Ha | now rewrite Hna]).
  set (la := count_if (fun x => cell_ltb x a) valid).
  set (ea := count_if (fun x => cell_eqb x a) valid).
  set (lb := count_if (fun x => cell_ltb x b) valid).
  set (eb := count_if (fun x => cell_eqb x b) valid).
  assert (Heb : (1 <= eb)%nat).
  { apply (count_if_pos _ _ b Hvb). unfold cell_eqb. now rewrite cell_leb_refl. }
  assert (Hea : (1 <= ea)%nat).
  { apply (count_if_pos _ _ a Hva). unfold cell_eqb. now rewrite cell_leb_refl. }
  assert (Hstep : (la + ea <= lb)%nat).
  { assert (Hbelow : forall x, cell_leb x a = true -> cell_ltb x b = true).
    { intros x Hxa. unfold cell_ltb. apply andb_true_iff. split.
      - now apply (cell_leb_trans x a b).
      - apply negb_true_iff. destruct (cell_leb b x) eqn:E; [|reflexivity].
        rewrite (cell_leb_trans b x a E Hxa) in Hnle. discriminate. }
    apply count_if_two.
    - intros x _ Hl Hq. unfold cell_ltb, cell_eqb in *.
      apply andb_true_iff in Hl as [_ Hl], Hq as [_ Hq].
      rewrite Hq in Hl. discriminate.
    - intros x _ Hl. apply Hbelow. unfold cell_ltb in Hl.
      now apply andb_true_iff in Hl as [Hl _].
    - intros x _ Hq. apply Hbelow. unfold cell_eqb in Hq.
      now apply andb_true_iff in Hq as [Hq _]. }
  assert (Hn : (1 <= length valid)%nat) by (destruct valid; [destruct Hva | simpl; lia]).
  do 2 eexists. split; [reflexivity|]. split; [reflexivity|].
  pose proof (Qnat_nonneg la) as HL.
  pose proof (Qnat_le _ _ Hea) as HEa. change (Qnat 1) with 1 in HEa.
  pose proof (Qnat_le _ _ Heb) as HEb. change (Qnat 1) with 1 in HEb.
  pose proof (Qnat_le _ _ Hstep) as HS. rewrite Qnat_plus in HS.
  pose proof (Qnat_le _ _ Hn) as HN. change (Qnat 1) with 1 in HN.
  unfold Qdiv at 1 3. apply Qmult_lt_compat_r.
  - apply Qinv_lt_0_compat. lra.
  - assert (H1 : (Qnat ea + 1) / 2 == (Qnat ea + 1) * (1 # 2)) by reflexivity.
    assert (H2 : (Qnat eb + 1) / 2 == (Qnat eb + 1) * (1 # 2)) by reflexivity.
    rewrite H1, H2. lra.
Qed.

Lemma rank_pct_tie (col : list cell) (a b : cell) :
  cell_eqb a b = true -> rank_pct col a = rank_pct col b.
Proof.
  intros Hab. unfold rank_pct.
  assert (Hn : is_nan a = false /\ is_nan b = false).
  { unfold cell_eqb in Hab. apply andb_true_iff in Hab as [H _].
    now apply cell_leb_not_nan in H. }
  destruct Hn as [-> ->]. unfold count_if.
  rewrite (filter_ext (fun x => cell_ltb x a) (fun x => cell_ltb x b)).
  - rewrite (filter_ext (fun x => cell_eqb x a) (fun x => cell_eqb x b));
      [reflexivity|].
    intros x. unfold cell_eqb.
    now rewrite (cell_leb_eqb_r x a b Hab), (cell_leb_eqb_l x a b Hab).
  - intros x. unfold cell_ltb.
    now rewrite (cell_leb_eqb_r x a b Hab), (cell_leb_eqb_l x a b Hab).
Qed.

Lemma income_percentile_present (df_states : list map_row) (r : map_row) :
  In r df_states -> is_nan (m_median_income r) = false ->
  exists p, income_percentile df_states r = Finite p /\ 0 < p /\ p <= 100.
Proof.
  intros Hr Hv. unfold income_percentile.
  destruct (rank_pct_present (map m_median_income df_states) (m_median_income r))
    as (p & -> & H0 & H1); [now apply in_map | exact Hv |].
  exists (p * 100). split; [reflexivity|]. split; lra.
Qed.

(** X14: the income percentile of a state row is null when its median income
    is null, and otherwise a number above 0 and at most 100. *)
Theorem income_percentile_range (df_states : list map_row) (r : map_row) :
  In r df_states ->
  (is_nan (m_median_income r) = true -> income_percentile df_states r = NaN) /\
  (is_nan (m_median_income r) = false ->
   exists p, income_percentile df_states r = Finite p /\ 0 < p /\ p <= 100).
Proof.
  intros Hr. split.
  - intros Hv. unfold income_percentile, rank_pct. now rewrite Hv.
  - now apply income_percentile_present.
Qed.

Lemma income_percentile_range_witness :
  In Examples.ca_summary_row Examples.df_states_ex /\
  is_nan (m_median_income Examples.ca_summary_row) = false /\
  exists p, income_percentile Examples.df_states_ex Examples.ca_summary_row = Finite p /\
            0 < p /\ p <= 100 /\ p == 100.
Proof.
  assert (Hin : In Examples.ca_summary_row Examples.df_states_ex) by now left.
  split; [exact Hin|]. split; [reflexivity|].
  destruct (proj2 (income_percentile_range _ _ Hin) eq_refl) as (p & Hp & H0 & H1).
  exists p. split; [exact Hp|]. split; [exact H0|]. split; [exact H1|].
  vm_compute in Hp. injection Hp as <-. reflexivity.
Defined.

(** X15: the percentile follows the income: of two state rows the one with
    the larger median income has the larger percentile, and rows of equal
    income have the same percentile. *)
Theorem income_percentile_order (df_states : list map_row) (a b : map_row) :
  In a df_states -> In b df_states ->
  (cell_ltb (m_median_income a) (m_median_income b) = true ->
   cell_ltb (income_percentile df_states a) (income_percentile df_states b) = true) /\
  (cell_eqb (m_median_income a) (m_median_income b) = true ->
   income_percentile df_states a = income_percentile df_states b).
Proof.
  intros Ha Hb. split.
  - intros Hlt. unfold income_percentile.
    destruct (rank_pct_strict (map m_median_income df_states)
                (m_median_income a) (m_median_income b))
      as (p & q & -> & -> & Hpq); [now apply in_map | now apply in_map | exact Hlt |].
    unfold cell_ltb. simpl. apply andb_true_iff. split.
    + apply Qle_bool_iff. lra.
    + apply negb_true_iff. destruct (Qle_bool (q * 100) (p * 100)) eqn:E;
        [apply Qle_bool_iff in E; lra | reflexivity].
  - intros Heq. unfold income_percentile. f_equal. now apply rank_pct_tie.
Qed.

Lemma income_percentile_order_witness :
  In (merge_row ("TX", 500) Examples.tx_census_row) Examples.df_states_ex /\
  In Examples.ca_summary_row Examples.df_states_ex /\
  cell_ltb (m_median_income (merge_row ("TX", 500) Examples.tx_census_row))
           (m_median_income Examples.ca_summary_row) = true /\
  cell_ltb (income_percentile Examples.df_states_ex
              (merge_row ("TX", 500) Examples.tx_census_row))
           (income_percentile Examples.df_states_ex Examples.ca_summary_row) = true.
Proof.
  assert (Ha : In (merge_row ("TX", 500) Examples.tx_census_row) Examples.df_states_ex)
    by (right; now left).
  assert (Hb : In Examples.ca_summary_row Examples.df_states_ex) by now left.
  split; [exact Ha|]. split; [exact Hb|]. split; [reflexivity|].
  apply (proj1 (income_percentile_order _ _ _ Ha Hb)). reflexivity.
Defined.

(** X16: with the income slider at its full range (0, 100) the income filter
    keeps exactly the states that have a row with a median income: a state
    whose income is null is dropped even then. *)
Theorem full_income_band (df_states : list map_row) (c : controls) (s : string) :
  income_range c = (0%Z, 100%Z) ->
  (In s (wealth_eligible_states df_states c) <->
   exists st, In st df_states /\ m_state st = s /\
              is_nan (m_median_income st) = false).
Proof.
  intros Hrange. rewrite wealth_eligible_states_In. unfold in_income_band.
  rewrite Hrange. simpl fst. simpl snd. split.
  - intros (st & Hst & Hs & Hlo & _). exists st. split; [exact Hst|].
    split; [exact Hs|].
    destruct (is_nan (m_median_income st)) eqn:E; [|reflexivity].
    unfold income_percentile, rank_pct in Hlo. rewrite E in Hlo. discriminate.
  - intros (st & Hst & Hs & Hv). exists st. split; [exact Hst|]. split; [exact Hs|].
    destruct (income_percentile_present _ _ Hst Hv) as (p & -> & H0 & H1).
    simpl. split; apply Qle_bool_iff.
    + change (inject_Z 0) with 0. lra.
    + change (inject_Z 100) with 100. lra.
Qed.

Lemma full_income_band_witness :
  income_range full_band_controls = (0%Z, 100%Z) /\
  In "TX" (wealth_eligible_states Examples.df_states_ex full_band_controls) /\
  ~ In "PR" (wealth_eligible_states Examples.df_states_ex full_band_controls).
Proof.
  assert (Hr : income_range full_band_controls = (0%Z, 100%Z)) by reflexivity.
  split; [exact Hr|]. split.
  - apply (full_income_band Examples.df_states_ex full_band_controls "TX" Hr).
    exists (merge_row ("TX", 500) Examples.tx_census_row).
    split; [right; now left|]. split; reflexivity.
  - intros H.
    apply (full_income_band Examples.df_states_ex full_band_controls "PR" Hr) in H.
    destruct H as (st & [<-|[<-|[]]] & Hs & _); discriminate Hs.
Defined.

(** A state row without a median income never passes the income filter. *)
Example null_income_never_eligible :
  wealth_eligible_states
    [ Examples.ca_summary_row;
      merge_row ("TX", 500) {| state_name := "Texas"; median_income := NaN;
                               total_households := Finite 5;
                               state_abbr := Some "TX" |} ]
    full_band_controls
  = ["CA"].
Proof. reflexivity. Qed.

(* ------------------------------------------------------------------ *)
(** ** The largest row, and selections that match nothing *)

Lemma sample_quantile_le_max (xs : list Q) (q m : Q) :
  xs <> [] -> 0 <= q -> q <= 1 -> (forall x, In x xs -> x <= m) ->
  sample_quantile xs q <= m.
Proof.
  intros Hne H0 H1 Hm. unfold sample_quantile.
  set (s := sort Qle_bool xs).
  destruct (virtual_index_range (length s - 1) q H0 H1) as [Hh0 Hhn].
  destruct (interpolate_between s _ (sort_Q_sorted xs) (sort_nonempty xs Hne) Hh0 Hhn)
    as [_ Hup].
  eapply Qle_trans; [exact Hup|]. apply Hm.
  apply (sort_In Qle_bool). apply nth_In. fold s.
  assert (0 < length s)%nat; [|lia].
  unfold s. rewrite sort_length. destruct xs; [congruence | simpl; lia].
Qed.




Lemma filter_none {A : Type} (f : A -> bool) (l : list A) :
  (forall a, In a l -> f a = false) -> List.filter f l = [].
Proof.
  intros H. destruct (List.filter f l) as [|a t] eqn:E; [reflexivity|].
  assert (Ha : In a (List.filter f l)) by (rewrite E; now left).
  apply filter_In in Ha as [Ha Hf]. rewrite (H a Ha) in Hf. discriminate.
Qed.

(** X18: when no detail row matches the selection (no specialty or no state
    chosen, or none in the income band), the filtered set is empty for every
    value of [top_percent], no quantile being asked for, and the total, the
    share and the row count are 0 and there is no Lorenz point. *)
Theorem selection_matching_nothing (df_details : list detail_row)
    (df_states : list map_row) (c : controls) :
  (forall r, In r df_details ->
     ~ (In (d_specialty_clean r) (selected_specialty c) /\
        In (d_state r) (selected_states c) /\
        in_income_band df_states c (d_state r))) ->
  filtered_df df_details df_states c = Ok [] /\
  (forall df, filtered_df df_details df_states c = Ok df ->
     total_payments df == 0 /\ top_1_share df = Ok (Finite 0) /\
     record_count df = 0%nat /\ lorenz_points df = []).
Proof.
  intros Hnone.
  assert (Hsel : select_rows df_details df_states c = []).
  { destruct (select_rows df_details df_states c) as [|r t] eqn:E; [reflexivity|].
    assert (Hr : In r (select_rows df_details df_states c)) by (rewrite E; now left).
    apply select_rows_In in Hr as (Hr & H1 & H2 & H3).
    exfalso. now apply (Hnone r Hr). }
  assert (Hdf : filtered_df df_details df_states c = Ok []).
  { unfold filtered_df, apply_top_percent. rewrite Hsel. simpl.
    now rewrite andb_false_r. }
  split; [exact Hdf|].
  intros df H. rewrite Hdf in H. injection H as <-. repeat split; reflexivity.
Qed.

Lemma selection_matching_nothing_witness :
  filtered_df Examples.df_details_ex Examples.df_states_ex
    {| selected_states := ["CA"; "TX"];
       selected_specialty := [];
       income_range := (0%Z, 100%Z);
       top_percent := (-5) |} = Ok [].
Proof.
  apply (selection_matching_nothing Examples.df_details_ex Examples.df_states_ex
           {| selected_states := ["CA"; "TX"];
              selected_specialty := [];
              income_range := (0%Z, 100%Z);
              top_percent := (-5) |}).
  intros r _ [[] _].
Defined.

Lemma Qnat_S (n : nat) : Qnat (S n) == Qnat n + 1.
Proof.
  replace (S n) with (n + 1)%nat by lia. now rewrite Qnat_plus.
Qed.

Lemma Qsum_le_bound (l : list Q) (a : Q) :
  Forall (fun x => x <= a) l -> Qsum l <= Qnat (length l) * a.
Proof.
  induction 1 as [|x t Hx Ht IH]; simpl Qsum; simpl length.
  - change (Qnat 0) with 0. lra.
  - rewrite Qnat_S. lra.
Qed.

Lemma filter_sum_member (f : detail_row -> bool) (l : list detail_row) (r : detail_row) :
  nonneg_amounts l -> In r l -> f r = true ->
  d_payment_amount r <= Qsum (amounts (List.filter f l)).
Proof.
  unfold nonneg_amounts. induction 1 as [|a t Ha Ht IH]; intros Hr Hf; [destruct Hr|].
  pose proof (filter_sum_mono f f t Ht (fun _ _ H => H)) as [Hnn _].
  simpl. destruct Hr as [->|Hr].
  - rewrite Hf. simpl. lra.
  - specialize (IH Hr Hf). destruct (f a); simpl; lra.
Qed.

(** X19: while the total is positive the top-1% share is positive too: a row
    of the largest amount always counts, so the share is at least that row's
    part of the total. *)
Theorem top_1_share_counts_largest (df : list detail_row) (r : detail_row) :
  nonneg_amounts df -> 0 < total_payments df -> largest_in df r ->
  exists share,
    top_1_share df = Ok (Finite share) /\
    d_payment_amount r / total_payments df <= share /\ 0 < share.
Proof.
  intros Hnn Hpos [Hr Hmax].
  rewrite (top_1_share_positive_total df Hpos).
  eexists. split; [reflexivity|].
  assert (Hkeep : Qle_bool (sample_quantile (amounts df) (99 # 100))
                           (d_payment_amount r) = true).
  { apply Qle_bool_iff. apply sample_quantile_le_max; try lra.
    - now apply amounts_nonempty.
    - intros x Hx. apply in_map_iff in Hx as (r' & <- & Hr'). now apply Hmax. }
  pose proof (filter_sum_member
                (fun r0 => Qle_bool (sample_quantile (amounts df) (99 # 100))
                                    (d_payment_amount r0))
                df r Hnn Hr Hkeep) as Hsum.
  assert (Hamt : 0 < d_payment_amount r).
  { assert (Hb : total_payments df
                 <= Qnat (length (amounts df)) * d_payment_amount r).
    { apply Qsum_le_bound, List.Forall_forall. intros x Hx.
      apply in_map_iff in Hx as (r' & <- & Hr'). now apply Hmax. }
    pose proof (Qnat_nonneg (length (amounts df))) as Hn. nra. }
  split.
  - now apply Qdiv_le_mono.
  - apply Qlt_shift_div_l; lra.
Qed.

Lemma top_1_share_counts_largest_witness :
  nonneg_amounts (map Examples.detail_of [10; 20; 30; 40]) /\
  0 < total_payments (map Examples.detail_of [10; 20; 30; 40]) /\
  largest_in (map Examples.detail_of [10; 20; 30; 40]) (Examples.detail_of 40) /\
  exists share,
    top_1_share (map Examples.detail_of [10; 20; 30; 40]) = Ok (Finite share) /\
    d_payment_amount (Examples.detail_of 40)
      / total_payments (map Examples.detail_of [10; 20; 30; 40]) <= share /\
    0 < share.
Proof.
  assert (Hnn : nonneg_amounts (map Examples.detail_of [10; 20; 30; 40]))
    by (repeat constructor; discriminate).
  assert (Hpos : 0 < total_payments (map Examples.detail_of [10; 20; 30; 40]))
    by reflexivity.
  assert (Hr : largest_in (map Examples.detail_of [10; 20; 30; 40])
                          (Examples.detail_of 40)).
  { split; [simpl; tauto|]. intros r' [<-|[<-|[<-|[<-|[]]]]]; simpl; lra. }
  split; [exact Hnn|]. split; [exact Hpos|]. split; [exact Hr|].
  exact (top_1_share_counts_largest _ _ Hnn Hpos Hr).
Defined.

(* ------------------------------------------------------------------ *)
(** ** What a state-summary row holds, and where unknown states go *)

(** X21: a state-summary row pairs a state with the census row of that very
    abbreviation, carries its name, income and household count over unchanged,
    and its payment amount is the sum of the cleaned payments of that state and
    of no other. *)
Theorem state_summary_row_contents (raw : list raw_payment) (acs : list policy_row)
    (m : map_row) :
  In m (map_data (clean_payments raw) acs) ->
  m_state_abbr m = Some (m_state m) /\
  (exists r, In r acs /\ state_abbr r = Some (m_state m) /\
             m_state_name m = state_name r /\
             m_median_income m = median_income r /\
             m_total_households m = total_households r) /\
  m_payment_amount m
    = Qsum (map payment_amount
              (List.filter (fun p => bool_decide (state p = m_state m))
                           (clean_payments raw))) /\
  (exists p, In p (clean_payments raw) /\ state p = m_state m).
Proof.
  intros Hm. apply map_data_In in Hm as (l & r & Hl & Hr & Hab & ->). simpl.
  unfold state_summary in Hl. apply groupby_sum_In in Hl as [Hk Hv].
  split; [exact Hab|]. split; [now exists r|]. split; [exact Hv|].
  now apply group_keys_In in Hk.
Qed.

Lemma state_summary_row_contents_witness :
  In Examples.ca_summary_row
     (map_data (clean_payments Examples.raw_payments_ex) [Examples.ca_census_row]) /\
  m_payment_amount Examples.ca_summary_row
    = Qsum (map payment_amount
              (List.filter (fun p => bool_decide (state p = "CA"))
                           (clean_payments Examples.raw_payments_ex))) /\
  Qsum (map payment_amount
          (List.filter (fun p => bool_decide (state p = "CA"))
                       (clean_payments Examples.raw_payments_ex))) == 100 + 900.
Proof.
  assert (Hin : In Examples.ca_summary_row
                   (map_data (clean_payments Examples.raw_payments_ex)
                             [Examples.ca_census_row]))
    by (vm_compute; left; reflexivity).
  split; [exact Hin|]. split; [|reflexivity].
  exact (proj1 (proj2 (proj2 (state_summary_row_contents _ _ _ Hin)))).
Defined.

Lemma unknown_not_abbr : ~ In "Unknown" state_abbrs.
Proof.
  intros H. apply str_in_In in H. vm_compute in H. discriminate.
Qed.

(** X22: a payment with a positive amount and no state is kept under the
    state "Unknown": it has a row in the detail table, and no row of the state
    summary, "Unknown" being no abbreviation of the census lookup. *)
Theorem missing_state_is_unknown (to_numeric : string -> cell) (t : acs_table)
    (acs : list policy_row) (raw : list raw_payment) (r : raw_payment) :
  In r raw -> Recipient_State r = None ->
  positive_amount (Total_Amount_of_Payment_USDollars r) = true ->
  prepare_acs to_numeric t = Ok acs ->
  (exists d, In d (detail_data (clean_payments raw)) /\ d_state d = "Unknown") /\
  (forall m, In m (map_data (clean_payments raw) acs) -> m_state m <> "Unknown").
Proof.
  intros Hr Hst Hamt Hacs. split.
  - apply detail_data_state. unfold in_payments.
    unfold positive_amount in Hamt.
    destruct (Total_Amount_of_Payment_USDollars r) as [a|] eqn:Ea; [|discriminate].
    assert (Hc : exists p, clean_row r = Some p /\ state p = "Unknown").
    { unfold clean_row. rewrite Ea, Hamt, Hst. eexists. split; reflexivity. }
    destruct Hc as (p & Hp & Hs). exists p. split; [|exact Hs].
    apply clean_payments_In. now exists r.
  - intros m Hm Hu. apply map_data_In in Hm as (l & c & _ & Hc & Hab & ->).
    simpl in Hu. destruct (prepare_acs_rows _ _ _ _ Hacs Hc) as [Hlook _].
    rewrite Hlook, Hu in Hab. apply state_to_abbr_Some in Hab as [_ Hin].
    now apply unknown_not_abbr.
Qed.

Lemma missing_state_is_unknown_witness :
  In (Examples.raw_row None (Some "Cardiology") (Some 7))
     [Examples.raw_row None (Some "Cardiology") (Some 7)] /\
  (exists d, In d (detail_data (clean_payments
                                  [Examples.raw_row None (Some "Cardiology") (Some 7)]))
             /\ d_state d = "Unknown") /\
  map_data (clean_payments [Examples.raw_row None (Some "Cardiology") (Some 7)])
           [Examples.ca_census_row] = [].
Proof.
  assert (Hin : In (Examples.raw_row None (Some "Cardiology") (Some 7))
                   [Examples.raw_row None (Some "Cardiology") (Some 7)]) by now left.
  split; [exact Hin|]. split; [|reflexivity].
  assert (Hacs : prepare_acs read_decimal Examples.acs_ex
                 = Ok [ {| state_name := "California"; median_income := Finite 91905;
                           total_households := Finite 2; state_abbr := Some "CA" |};
                        {| state_name := "Puerto Rico"; median_income := Finite 25096;
                           total_households := Finite 3; state_abbr := None |} ])
    by reflexivity.
  exact (proj1 (missing_state_is_unknown read_decimal Examples.acs_ex _ _ _
                  Hin eq_refl eq_refl Hacs)).
Defined.

Lemma filter_sublist {A : Type} (f : A -> bool) (l : list A) :
  sublist (List.filter f l) l.
Proof.
  induction l as [|a t IH]; simpl; [constructor|].
  destruct (f a); [now apply sublist_skip | now apply sublist_cons].
Qed.

(** X23: filtering never reorders, repeats or alters rows: whatever the
    controls, the filtered set is a sub-sequence of the detail table. *)
Theorem filtered_rows_subsequence (df_details : list detail_row)
    (df_states : list map_row) (c : controls) (df : list detail_row) :
  filtered_df df_details df_states c = Ok df -> sublist df df_details.
Proof.
  unfold filtered_df, apply_top_percent, select_rows. intros H.
  destruct (_ && _).
  - destruct (Series_quantile _ _) as [thr|]; simpl in H; [|discriminate].
    injection H as <-. etransitivity; apply filter_sublist.
  - injection H as <-. apply filter_sublist.
Qed.

Lemma filtered_rows_subsequence_witness :
  filtered_df Examples.df_details_ex Examples.df_states_ex Examples.controls_ex
    = Ok [Examples.detail "CA" "Cardiology" 10; Examples.detail "CA" "Cardiology" 20;
          Examples.detail "CA" "Cardiology" 40] /\
  sublist [Examples.detail "CA" "Cardiology" 10; Examples.detail "CA" "Cardiology" 20;
           Examples.detail "CA" "Cardiology" 40] Examples.df_details_ex.
Proof.
  assert (Hdf : filtered_df Examples.df_details_ex Examples.df_states_ex
                  Examples.controls_ex
                = Ok [Examples.detail "CA" "Cardiology" 10;
                      Examples.detail "CA" "Cardiology" 20;
                      Examples.detail "CA" "Cardiology" 40])
    by (vm_compute; reflexivity).
  split; [exact Hdf|].
  exact (filtered_rows_subsequence _ _ _ _ Hdf).
Defined.
